(** * Attachment upload orchestrator: [src/lib/antrag-file-utils.ts]

    A shallow embedding of [validateAntragFiles], [uploadAntragFiles] and
    [deleteAntragFiles], and the properties of the upload contract.

    Modelling conventions.
    - A JavaScript string is the list of its UTF-16 code units.
    - A JavaScript number that the code uses as a counter, a size or a delay
      is a mathematical integer ([Z]); [Math.pow(2, attempt)] is [2 ^ attempt].
      The only division, by [1024 * 1024], is kept exact in [Q].
    - The blob store ([put], [del]), [File.arrayBuffer], the clock, the timer
      and the console are the outside world.  Every call to them is appended
      to a chronological trace together with its outcome; what the world
      answers is a function of the trace so far ([Env]).
    - An [async] function is a state-passing computation over that trace
      which returns a value, throws, or runs out of loop fuel ([outcome]).
      The top-level functions supply their own fuel and are shown total. *)

From Stdlib Require Import String Ascii ZArith QArith List Bool Lia.
From Stdlib Require Import DecimalString DecimalNat DecimalZ.
From Stdlib Require Strings.Byte.
Import ListNotations.

Local Open Scope Z_scope.
Local Open Scope list_scope.

(* ================================================================== *)
(** ** JavaScript strings *)

Definition char16 := N.
Definition jsstring := list char16.

(** An ASCII literal of the source, as code units. *)
Fixpoint lit (s : string) : jsstring :=
  match s with
  | EmptyString => []
  | String c s' => N_of_ascii c :: lit s'
  end.

Fixpoint jsstring_eqb (a b : jsstring) : bool :=
  match a, b with
  | [], [] => true
  | x :: a', y :: b' => N.eqb x y && jsstring_eqb a' b'
  | _, _ => false
  end.

(** [String(i)] for a non-negative integer index. *)
Definition showNat (n : nat) : jsstring :=
  lit (NilEmpty.string_of_uint (Nat.to_uint n)).

(** [String(z)] for an integer below 1e21 in magnitude (a [Date] time value
    is at most 8.64e15). *)
Definition showZ (z : Z) : jsstring :=
  lit (NilEmpty.string_of_int (Z.to_int z)).

Definition DASH : char16 := 45%N.
Definition QUOTE : char16 := 34%N.
Definition A_UMLAUT : char16 := 228%N.

(** The class [\s] of an ECMAScript regular expression: WhiteSpace and
    LineTerminator code points. *)
Definition isWhiteSpace (c : char16) : bool :=
  ((9 <=? c) && (c <=? 13) || (c =? 32) || (c =? 160) || (c =? 5760)
   || (8192 <=? c) && (c <=? 8202) || (c =? 8232) || (c =? 8233)
   || (c =? 8239) || (c =? 8287) || (c =? 12288) || (c =? 65279))%N.

(** [s.replace(/\s+/g, '-')]: every maximal run of white space becomes one
    dash.  [inRun] tells that the previous code unit was white space. *)
Fixpoint replaceWhiteSpaceRuns (inRun : bool) (s : jsstring) : jsstring :=
  match s with
  | [] => []
  | c :: rest =>
      if isWhiteSpace c
      then (if inRun then [] else [DASH]) ++ replaceWhiteSpaceRuns true rest
      else c :: replaceWhiteSpaceRuns false rest
  end.

Definition sanitizeFileName (fileName : jsstring) : jsstring :=
  replaceWhiteSpaceRuns false fileName.

(** [`antraege/${timestamp}-${i}-${sanitizedFileName}`] *)
Definition blobPathnameOf (timestamp : Z) (i : nat) (sanitizedFileName : jsstring)
  : jsstring :=
  lit "antraege/" ++ showZ timestamp ++ [DASH] ++ showNat i ++ [DASH]
    ++ sanitizedFileName.

(* ================================================================== *)
(** ** Data *)

Record File := mkFile {
  name : jsstring;
  type : jsstring;
  size : Z;
  data : list Byte.byte
}.

(** [new Blob([arrayBuffer], { type: file.type })] *)
Record Blob := mkBlob {
  blobParts : list Byte.byte;
  blobType : jsstring
}.

Inductive Access := access_public | access_private.

(** The options object handed to [put]. *)
Record PutOptions := mkPutOptions {
  access : Access;
  contentType : jsstring;
  addRandomSuffix : bool;
  cacheControlMaxAge : Z
}.

(** Modelled from the spec: the class [AppError] of [./errors] is imported
    but not among the sources.  The spec gives the file-upload error as one
    kind of application error, built by [AppError.fileUpload(message)] and
    carrying a user-facing message. *)
Inductive AppErrorType :=
| FILE_UPLOAD
| OTHER_TYPE (code : jsstring).

(** Modelled from the spec: the class [ValidationError] of
    [@/lib/validation] is imported but not among the sources.  The spec
    gives it as carrying a mapping of field name to message.  A thrown value
    is an instance of one of the two classes the code tests with
    [instanceof], or anything else. *)
Inductive exn :=
| ValidationError (fieldErrors : list (jsstring * jsstring))
| AppError (errorType : AppErrorType) (message : jsstring)
| OtherError (description : jsstring).

Definition instanceofValidationError (e : exn) : bool :=
  match e with ValidationError _ => true | _ => false end.

Definition instanceofAppError (e : exn) : bool :=
  match e with AppError _ _ => true | _ => false end.

(** [AppError.fileUpload(message)] *)
Definition AppError_fileUpload (message : jsstring) : exn :=
  AppError FILE_UPLOAD message.

Record DeletionOutcome := mkDeletionOutcome {
  success : bool;
  deletedUrls : list jsstring
}.

(** The lines written to the console, with the interpolated values kept as
    fields; the numbers are the ones the template literals print. *)
Inductive consoleLine :=
| LogRetryingUpload (fileNo total attempt maxRetries : Z)
| LogUploaded (fileNo total : Z) (url : jsstring)
| ErrUploadAttemptFailed (attemptNo attempts fileNo : Z) (error : exn)
| LogCleaningUpAfterFailure
| ErrCleanupFailed (deleteError : exn)
| LogWaiting (delay : Z)
| LogCleaningUpAfterUnexpected
| ErrUnexpectedUpload (error : exn)
| LogAttemptingDelete (count : nat)
| LogRetryingDelete (attempt maxRetries : Z)
| LogDeleted
| ErrDeleteAttemptFailed (attemptNo attempts : Z) (error : exn)
| ErrDeleteMaxRetries.

(** One interaction with the outside world and what came back. *)
Inductive event :=
| EvArrayBuffer (file : File) (rejected : option exn)
| EvPut (pathname : jsstring) (body : Blob) (options : PutOptions)
        (result : exn + jsstring)
| EvDel (urls : list jsstring) (rejected : option exn)
| EvSleep (ms : Z)
| EvConsole (line : consoleLine).

Definition World := list event.

(** What the outside world answers, given everything that happened so far. *)
Record Env := mkEnv {
  getTime : World -> Z;
  arrayBufferOutcome : World -> File -> option exn;
  putOutcome : World -> jsstring -> Blob -> PutOptions -> exn + jsstring;
  delOutcome : World -> list jsstring -> option exn
}.

(** The result object of the shared routine [validateFiles]. *)
Record ValidationResult := mkValidationResult {
  isValid : bool;
  errors : option (list jsstring)
}.

(** What [antrag-file-utils.ts] imports from [./validation/file-schemas]
    and [@/lib/validation-messages]: the limits, the allow-list, the shared
    routine and the two message builders. *)
Record Config := mkConfig {
  ANTRAG_COUNT : Z;
  ANTRAG : Z;
  ANTRAG_TOTAL : Z;
  FILE_TYPES_ANTRAG : list jsstring;
  validateFiles : list File -> Z -> Z -> list jsstring -> ValidationResult;
  required : jsstring -> jsstring;
  fileSizeExceeds : jsstring -> Q -> jsstring
}.

(* ================================================================== *)
(** ** Computations *)

Inductive outcome (A : Type) :=
| Ok (a : A)
| Throw (e : exn)
| OutOfFuel.
Arguments Ok {A} a.
Arguments Throw {A} e.
Arguments OutOfFuel {A}.

Definition M (S A : Type) := S -> outcome A * S.

Definition ret {S A} (a : A) : M S A := fun s => (Ok a, s).

Definition bind {S A B} (m : M S A) (k : A -> M S B) : M S B :=
  fun s =>
    match m s with
    | (Ok a, s') => k a s'
    | (Throw e, s') => (Throw e, s')
    | (OutOfFuel, s') => (OutOfFuel, s')
    end.

Definition throw {S A} (e : exn) : M S A := fun s => (Throw e, s).

Definition outOfFuel {S A} : M S A := fun s => (OutOfFuel, s).

(** [try { body } catch (error) { handler }] *)
Definition try_catch {S A} (body : M S A) (handler : exn -> M S A) : M S A :=
  fun s =>
    match body s with
    | (Throw e, s') => handler e s'
    | r => r
    end.

Definition pure {S A} (o : outcome A) : M S A := fun s => (o, s).

Definition when {S} (b : bool) (m : M S unit) : M S unit :=
  if b then m else ret tt.

Declare Scope monad_scope.
Delimit Scope monad_scope with monad.
Notation "x <- m ;; k" := (bind m (fun x => k))
  (at level 61, m at next level, right associativity) : monad_scope.
Notation "m ;; k" := (bind m (fun _ => k))
  (at level 61, right associativity) : monad_scope.
Local Open Scope monad_scope.

(** *** The outside world *)

Definition emit (e : event) : M World unit := fun tr => (Ok tt, tr ++ [e]).

Definition console (line : consoleLine) : M World unit := emit (EvConsole line).

(** [await sleep(ms)] *)
Definition sleep (ms : Z) : M World unit := emit (EvSleep ms).

(** [new Date().getTime()] *)
Definition now (env : Env) : M World Z := fun tr => (Ok (getTime env tr), tr).

(** [await file.arrayBuffer()] *)
Definition arrayBuffer (env : Env) (file : File) : M World (list Byte.byte) :=
  fun tr =>
    match arrayBufferOutcome env tr file with
    | None => (Ok (data file), tr ++ [EvArrayBuffer file None])
    | Some e => (Throw e, tr ++ [EvArrayBuffer file (Some e)])
    end.

(** [await put(pathname, body, options)], yielding the [url] field. *)
Definition put (env : Env) (pathname : jsstring) (body : Blob)
  (options : PutOptions) : M World jsstring :=
  fun tr =>
    match putOutcome env tr pathname body options with
    | inr url => (Ok url, tr ++ [EvPut pathname body options (inr url)])
    | inl e => (Throw e, tr ++ [EvPut pathname body options (inl e)])
    end.

(** [await del(urls)] *)
Definition del (env : Env) (urls : list jsstring) : M World unit :=
  fun tr =>
    match delOutcome env tr urls with
    | None => (Ok tt, tr ++ [EvDel urls None])
    | Some e => (Throw e, tr ++ [EvDel urls (Some e)])
    end.

(* ================================================================== *)
(** ** [validateAntragFiles] *)

Section Validation.

Variable cfg : Config.

(** [!files || files.length === 0] *)
Definition noFiles {A} (files : option (list A)) : bool :=
  match files with
  | None => true
  | Some l => (Z.of_nat (length l) =? 0)
  end.

(** [files] once it is known to be present. *)
Definition present {A} (files : option (list A)) : list A :=
  match files with
  | None => []
  | Some l => l
  end.

(** [validationResult.errors[0] || fallback]: the first message unless it
    is missing or the empty string. *)
Definition firstErrorOr (errs : list jsstring) (fallback : jsstring) : jsstring :=
  match errs with
  | [] => fallback
  | [] :: _ => fallback
  | msg :: _ => msg
  end.

(** [files.reduce((sum, file) => sum + file.size, 0)] *)
Definition totalSizeOf (files : list File) : Z :=
  fold_left (fun sum file => sum + size file) files 0.

(** [FILE_SIZE_LIMITS.ANTRAG_TOTAL / (1024 * 1024)] *)
Definition maxSizeMB : Q :=
  (inject_Z (ANTRAG_TOTAL cfg) / inject_Z (1024 * 1024))%Q.

Definition validateAntragFiles (files : option (list File)) : outcome unit :=
  if noFiles files then Ok tt
  else
    let validationResult :=
      validateFiles cfg (present files) (ANTRAG_COUNT cfg) (ANTRAG cfg)
        (FILE_TYPES_ANTRAG cfg) in
    if negb (isValid validationResult)
       && (match errors validationResult with Some _ => true | None => false end)
    then
      Throw (ValidationError
               [(lit "files",
                 firstErrorOr (present (errors validationResult))
                   (required cfg (lit "files")))])
    else
      let totalSize := totalSizeOf (present files) in
      if totalSize >? ANTRAG_TOTAL cfg
      then
        Throw (ValidationError
                 [(lit "files", fileSizeExceeds cfg (lit "files") maxSizeMB)])
      else Ok tt.

End Validation.

(* ================================================================== *)
(** ** [deleteAntragFiles] *)

(** The default values of the parameters [maxRetries] and [retryDelay],
    which a call without them gets. *)
Definition DEFAULT_MAX_RETRIES : Z := 3.
Definition DEFAULT_RETRY_DELAY : Z := 1000.

(** How one pass through a loop body ends: with a [return] from the
    function, or by going round again with an updated counter. *)
Inductive loopStep (A : Type) :=
| Return (a : A)
| Continue (attempt : Z).
Arguments Return {A} a.
Arguments Continue {A} attempt.

Section Deletion.

Variable env : Env.
Variable urls : list jsstring.
Variable maxRetries retryDelay : Z.

(** The [try] block of one pass. *)
Definition deleteTry (attempt : Z) (deleted remainingUrls : list jsstring)
  : M World (loopStep DeletionOutcome) :=
  when (0 <? attempt) (console (LogRetryingDelete attempt maxRetries)) ;;
  del env remainingUrls ;;
  (* deletedUrls.push(...remainingUrls); remainingUrls = [] *)
  console LogDeleted ;;
  ret (Return (mkDeletionOutcome true (deleted ++ remainingUrls))).

(** The [catch (error)] clause of one pass. *)
Definition deleteCatch (attempt : Z) (deleted : list jsstring) (error : exn)
  : M World (loopStep DeletionOutcome) :=
  console (ErrDeleteAttemptFailed (attempt + 1) (maxRetries + 1) error) ;;
  if attempt >=? maxRetries
  then
    console ErrDeleteMaxRetries ;;
    ret (Return (mkDeletionOutcome false deleted))
  else
    let delay := retryDelay * 2 ^ attempt in
    console (LogWaiting delay) ;;
    sleep delay ;;
    ret (Continue (attempt + 1)).

(** The [while (attempt <= maxRetries && remainingUrls.length > 0)] loop
    and the [return] that follows it. *)
Fixpoint deleteAttempts (fuel : nat) (attempt : Z)
  (deleted remainingUrls : list jsstring) {struct fuel}
  : M World DeletionOutcome :=
  if (attempt <=? maxRetries) && (0 <? Z.of_nat (length remainingUrls))
  then
    match fuel with
    | O => outOfFuel
    | S fuel' =>
        step <- try_catch (deleteTry attempt deleted remainingUrls)
                  (deleteCatch attempt deleted) ;;
        match step with
        | Return r => ret r
        | Continue attempt' =>
            deleteAttempts fuel' attempt' deleted remainingUrls
        end
    end
  else
    ret (mkDeletionOutcome
           (Z.of_nat (length deleted) =? Z.of_nat (length urls)) deleted).

End Deletion.

Definition deleteAntragFiles (env : Env) (urls : option (list jsstring))
  (maxRetries retryDelay : Z) : M World DeletionOutcome :=
  if noFiles urls then ret (mkDeletionOutcome true [])
  else
    console (LogAttemptingDelete (length (present urls))) ;;
    deleteAttempts env (present urls) maxRetries retryDelay
      (Z.to_nat (maxRetries + 1)) 0 [] (present urls).

(* ================================================================== *)
(** ** [uploadAntragFiles] *)

(** The function's mutable local [uploadedUrls] lives next to the trace, so
    that both [catch] clauses see what was pushed before the throw. *)
Record UploadState := mkUploadState {
  trace : World;
  uploadedUrls : list jsstring
}.

(** Run a computation on the world inside the upload. *)
Definition liftW {A} (m : M World A) : M UploadState A :=
  fun st =>
    let '(r, tr) := m (trace st) in
    (r, mkUploadState tr (uploadedUrls st)).

(** [uploadedUrls.push(url)] *)
Definition pushUrl (url : jsstring) : M UploadState unit :=
  fun st => (Ok tt, mkUploadState (trace st) (uploadedUrls st ++ [url])).

Definition getUploadedUrls : M UploadState (list jsstring) :=
  fun st => (Ok (uploadedUrls st), st).

(** Declare [const uploadedUrls = []], run, and forget the local. *)
Definition withUploadedUrls {A} (m : M UploadState A) : M World A :=
  fun tr =>
    let '(r, st) := m (mkUploadState tr []) in
    (r, trace st).

Definition putOptionsFor (file : File) : PutOptions :=
  mkPutOptions access_public (type file) false 31536000.

Definition fileUploadMessage (fileName : jsstring) : jsstring :=
  lit "Fehler beim Hochladen der Datei " ++ [QUOTE] ++ fileName ++ [QUOTE]
    ++ lit ". Bitte versuchen Sie es sp" ++ [A_UMLAUT] ++ lit "ter erneut.".

Definition genericUploadMessage : jsstring :=
  lit "Fehler beim Hochladen der Dateien. Bitte versuchen Sie es sp"
    ++ [A_UMLAUT] ++ lit "ter erneut.".

Section Upload.

Variable env : Env.
Variable maxRetries retryDelay : Z.

(** [await deleteAntragFiles(uploadedUrls).catch(deleteError => ...)],
    behind its guard [uploadedUrls.length > 0]. *)
Definition cleanUp (announcement : consoleLine) : M UploadState unit :=
  uploaded <- getUploadedUrls ;;
  when (0 <? Z.of_nat (length uploaded))
    (liftW (console announcement) ;;
     try_catch
       (liftW (deleteAntragFiles env (Some uploaded) DEFAULT_MAX_RETRIES
                 DEFAULT_RETRY_DELAY) ;;
        ret tt)
       (fun deleteError => liftW (console (ErrCleanupFailed deleteError)))).

Section PerFile.

Variable total : nat.
Variable i : nat.
Variable file : File.
Variable blobPathname : jsstring.

(** The [try] block of one attempt; yields the new [attempt] and
    [uploaded]. *)
Definition uploadTry (attempt : Z) : M UploadState (Z * bool) :=
  liftW
    (when (0 <? attempt)
       (console (LogRetryingUpload (Z.of_nat i + 1) (Z.of_nat total)
                   attempt maxRetries))) ;;
  arrayBuffer_ <- liftW (arrayBuffer env file) ;;
  let blob := mkBlob arrayBuffer_ (type file) in
  url <- liftW (put env blobPathname blob (putOptionsFor file)) ;;
  pushUrl url ;;
  liftW (console (LogUploaded (Z.of_nat i + 1) (Z.of_nat total) url)) ;;
  ret (attempt, true).

(** The [catch (error)] clause of one attempt. *)
Definition uploadRetry (attempt : Z) (error : exn)
  : M UploadState (Z * bool) :=
  liftW (console (ErrUploadAttemptFailed (attempt + 1) (maxRetries + 1)
                    (Z.of_nat i + 1) error)) ;;
  if attempt >=? maxRetries
  then
    cleanUp LogCleaningUpAfterFailure ;;
    throw (AppError_fileUpload (fileUploadMessage (name file)))
  else
    let delay := retryDelay * 2 ^ attempt in
    liftW (console (LogWaiting delay)) ;;
    liftW (sleep delay) ;;
    ret (attempt + 1, false).

(** The [while (attempt <= maxRetries && !uploaded)] loop of one file. *)
Fixpoint uploadAttempts (fuel : nat) (attempt : Z) (uploaded : bool)
  {struct fuel} : M UploadState unit :=
  if (attempt <=? maxRetries) && negb uploaded
  then
    match fuel with
    | O => outOfFuel
    | S fuel' =>
        next <- try_catch (uploadTry attempt) (uploadRetry attempt) ;;
        uploadAttempts fuel' (fst next) (snd next)
    end
  else ret tt.

End PerFile.

(** The [for (let i = 0; i < files.length; i++)] loop, from index [i] on;
    [rest] is [files.slice(i)]. *)
Fixpoint uploadFrom (timestamp : Z) (total : nat) (i : nat)
  (rest : list File) {struct rest} : M UploadState unit :=
  match rest with
  | [] => ret tt
  | file :: rest' =>
      let sanitizedFileName := sanitizeFileName (name file) in
      let blobPathname := blobPathnameOf timestamp i sanitizedFileName in
      uploadAttempts total i file blobPathname
        (Z.to_nat (maxRetries + 1)) 0 false ;;
      uploadFrom timestamp total (S i) rest'
  end.

(** The outer [catch (error)] clause. *)
Definition uploadCatch (error : exn) : M UploadState (list jsstring) :=
  if instanceofValidationError error || instanceofAppError error
  then throw error
  else
    cleanUp LogCleaningUpAfterUnexpected ;;
    liftW (console (ErrUnexpectedUpload error)) ;;
    throw (AppError_fileUpload genericUploadMessage).

Variable cfg : Config.

Definition uploadAntragFiles (files : option (list File))
  : M World (list jsstring) :=
  pure (validateAntragFiles cfg files) ;;
  if noFiles files then ret []
  else
    withUploadedUrls
      (timestamp <- liftW (now env) ;;
       try_catch
         (uploadFrom timestamp (length (present files)) 0 (present files) ;;
          getUploadedUrls)
         uploadCatch).

End Upload.

(* ================================================================== *)
(** ** The shared validation routine *)

(** The three complaints of the shared routine. *)
Record ValidationTexts := mkValidationTexts {
  tooManyFiles : jsstring;
  fileTooLarge : jsstring;
  typeNotAllowed : jsstring
}.

Definition typeAllowed (allowList : list jsstring) (file : File) : bool :=
  existsb (jsstring_eqb (type file)) allowList.

(** Modelled from the spec: [validateFiles] of [./validation/file-schemas]
    is imported by [antrag-file-utils.ts] but is not among the sources.  The
    spec gives it as the pure routine
    [validateFiles(files, countLimit, perFileSizeLimit, allowList) ->
    { isValid, errors? }] that performs the per-file, count and type checks:
    it reports invalid, with its messages, when the file count exceeds
    [countLimit], when some file is larger than [perFileSizeLimit], or when
    some file's media type is not in [allowList]. *)
Definition validateFiles_spec (texts : ValidationTexts) (files : list File)
  (countLimit perFileSizeLimit : Z) (allowList : list jsstring)
  : ValidationResult :=
  let complaints :=
    (if Z.of_nat (length files) >? countLimit then [tooManyFiles texts] else [])
    ++ (if existsb (fun file => size file >? perFileSizeLimit) files
        then [fileTooLarge texts] else [])
    ++ (if existsb (fun file => negb (typeAllowed allowList file)) files
        then [typeNotAllowed texts] else []) in
  match complaints with
  | [] => mkValidationResult true None
  | _ => mkValidationResult false (Some complaints)
  end.

(** A configuration whose shared routine is the one of the spec. *)
Definition specConfig (countLimit perFileSizeLimit totalLimit : Z)
  (allowList : list jsstring) (texts : ValidationTexts)
  (requiredText : jsstring -> jsstring)
  (fileSizeExceedsText : jsstring -> Q -> jsstring) : Config :=
  mkConfig countLimit perFileSizeLimit totalLimit allowList
    (validateFiles_spec texts) requiredText fileSizeExceedsText.

(* ================================================================== *)
(** ** Reading a trace *)

(** The store calls and timer waits of a trace, without payloads. *)
Inductive obs :=
| ObsPutFailed (pathname : jsstring)
| ObsPutOk (pathname url : jsstring)
| ObsDel (urls : list jsstring) (ok : bool)
| ObsSleep (ms : Z).

Definition observeEvent (e : event) : list obs :=
  match e with
  | EvPut p _ _ (inl _) => [ObsPutFailed p]
  | EvPut p _ _ (inr url) => [ObsPutOk p url]
  | EvDel urls None => [ObsDel urls true]
  | EvDel urls (Some _) => [ObsDel urls false]
  | EvSleep ms => [ObsSleep ms]
  | EvArrayBuffer _ _ => []
  | EvConsole _ => []
  end.

Definition observe (evs : list event) : list obs := flat_map observeEvent evs.

(** Pathname and URL of every blob the store accepted, in order. *)
Definition storedBlobs (evs : list event) : list (jsstring * jsstring) :=
  flat_map (fun e => match e with
                     | EvPut p _ _ (inr url) => [(p, url)]
                     | _ => []
                     end) evs.

(** Pathnames of all [put] calls, in order. *)
Definition putPaths (evs : list event) : list jsstring :=
  flat_map (fun e => match e with EvPut p _ _ _ => [p] | _ => [] end) evs.

(** Arguments and success of all [del] calls, in order. *)
Definition delCalls (evs : list event) : list (list jsstring * bool) :=
  flat_map (fun e => match e with
                     | EvDel urls None => [(urls, true)]
                     | EvDel urls (Some _) => [(urls, false)]
                     | _ => []
                     end) evs.

(** Everything but store removals, timer waits and the console lines of
    [deleteAntragFiles] is foreign to a deletion. *)
Definition deletionEvent (urls : list jsstring) (e : event) : Prop :=
  match e with
  | EvDel us _ => us = urls
  | EvSleep _ => True
  | EvConsole (LogAttemptingDelete _) => True
  | EvConsole (LogRetryingDelete _ _) => True
  | EvConsole LogDeleted => True
  | EvConsole (ErrDeleteAttemptFailed _ _ _) => True
  | EvConsole ErrDeleteMaxRetries => True
  | EvConsole (LogWaiting _) => True
  | _ => False
  end.

(** The pathnames of a batch, from index [i] on. *)
Fixpoint pathsFrom (timestamp : Z) (i : nat) (files : list File) : list jsstring :=
  match files with
  | [] => []
  | file :: rest =>
      blobPathnameOf timestamp i (sanitizeFileName (name file))
        :: pathsFrom timestamp (S i) rest
  end.

(** [retries + 1] failed store calls for one pathname, with the waits
    between them, the first wait being [retryDelay * 2 ^ attempt]. *)
Fixpoint backoffSchedule (pathname : jsstring) (retryDelay attempt : Z)
  (retries : nat) : list obs :=
  ObsPutFailed pathname ::
  match retries with
  | O => []
  | S retries' =>
      ObsSleep (retryDelay * 2 ^ attempt)
        :: backoffSchedule pathname retryDelay (attempt + 1) retries'
  end.

(** *** The shape of a deletion *)

Section DeletionShape.

Variable urls : list jsstring.
Variable maxRetries retryDelay : Z.

Definition deleteRetryNote (attempt : Z) : list event :=
  if 0 <? attempt then [EvConsole (LogRetryingDelete attempt maxRetries)]
  else [].

Definition backoffWait (attempt : Z) : list event :=
  [EvConsole (LogWaiting (retryDelay * 2 ^ attempt));
   EvSleep (retryDelay * 2 ^ attempt)].

Definition failedDeleteAttempt (attempt : Z) (e : exn) : list event :=
  deleteRetryNote attempt
    ++ [EvDel urls (Some e);
        EvConsole (ErrDeleteAttemptFailed (attempt + 1) (maxRetries + 1) e)].

Fixpoint failedDeleteRun (attempt : Z) (errs : list exn) : list event :=
  match errs with
  | [] => []
  | e :: rest =>
      failedDeleteAttempt attempt e ++ backoffWait attempt
        ++ failedDeleteRun (attempt + 1) rest
  end.

Definition successfulDeleteAttempt (attempt : Z) : list event :=
  deleteRetryNote attempt ++ [EvDel urls None; EvConsole LogDeleted].

End DeletionShape.

(** *** The shape of an upload *)

(** Why an upload attempt failed: reading the file, or the store. *)
Inductive failure :=
| ReadFailed (e : exn)
| StoreFailed (e : exn).

Definition failureError (fl : failure) : exn :=
  match fl with ReadFailed e => e | StoreFailed e => e end.

(** What is known of a file that was stored: the failures before, and the
    URL the store returned. *)
Record fileRun := mkFileRun {
  failures : list failure;
  storedUrl : jsstring
}.

Section UploadShape.

Variable env : Env.
Variable maxRetries retryDelay : Z.
Variable timestamp : Z.
Variable total : nat.

Definition pathOf (i : nat) (file : File) : jsstring :=
  blobPathnameOf timestamp i (sanitizeFileName (name file)).

Definition uploadRetryNote (i : nat) (attempt : Z) : list event :=
  if 0 <? attempt
  then [EvConsole (LogRetryingUpload (Z.of_nat i + 1) (Z.of_nat total)
                     attempt maxRetries)]
  else [].

Definition failedCalls (i : nat) (file : File) (fl : failure) : list event :=
  match fl with
  | ReadFailed e => [EvArrayBuffer file (Some e)]
  | StoreFailed e =>
      [EvArrayBuffer file None;
       EvPut (pathOf i file) (mkBlob (data file) (type file))
         (putOptionsFor file) (inl e)]
  end.

Definition failedUploadAttempt (i : nat) (file : File) (attempt : Z)
  (fl : failure) : list event :=
  uploadRetryNote i attempt ++ failedCalls i file fl
    ++ [EvConsole (ErrUploadAttemptFailed (attempt + 1) (maxRetries + 1)
                     (Z.of_nat i + 1) (failureError fl))].

Fixpoint failedUploadRun (i : nat) (file : File) (attempt : Z)
  (fls : list failure) : list event :=
  match fls with
  | [] => []
  | fl :: rest =>
      failedUploadAttempt i file attempt fl ++ backoffWait retryDelay attempt
        ++ failedUploadRun i file (attempt + 1) rest
  end.

Definition successfulUploadAttempt (i : nat) (file : File) (attempt : Z)
  (url : jsstring) : list event :=
  uploadRetryNote i attempt
    ++ [EvArrayBuffer file None;
        EvPut (pathOf i file) (mkBlob (data file) (type file))
          (putOptionsFor file) (inr url);
        EvConsole (LogUploaded (Z.of_nat i + 1) (Z.of_nat total) url)].

(** The events of a file that ends up stored. *)
Definition fileSegment (i : nat) (file : File) (r : fileRun) : list event :=
  failedUploadRun i file 0 (failures r)
    ++ successfulUploadAttempt i file (Z.of_nat (length (failures r)))
         (storedUrl r).

Fixpoint batchSegments (i : nat) (files : list File) (runs : list fileRun)
  : list event :=
  match files, runs with
  | file :: files', r :: runs' =>
      fileSegment i file r ++ batchSegments (S i) files' runs'
  | _, _ => []
  end.

(** The events of a file that uses up its attempts. *)
Definition exhaustedSegment (i : nat) (file : File) (fls : list failure)
  (fl : failure) : list event :=
  failedUploadRun i file 0 fls ++ failedUploadAttempt i file maxRetries fl.

(** The trace after the guarded compensating deletion. *)
Definition cleanUpTrace (announcement : consoleLine) (uploaded : list jsstring)
  (tr : World) : World :=
  if 0 <? Z.of_nat (length uploaded)
  then snd (deleteAntragFiles env (Some uploaded) DEFAULT_MAX_RETRIES
              DEFAULT_RETRY_DELAY (tr ++ [EvConsole announcement]))
  else tr.

End UploadShape.

(** *** The runs of a deletion *)

(** The four ways [deleteAntragFiles(urls, maxRetries, retryDelay)] can go,
    each with its result and the events it adds. *)
Inductive deletionRun (urls : list jsstring) (maxRetries retryDelay : Z)
  : DeletionOutcome -> list event -> Prop :=
| deletion_nothing :
    urls = [] ->
    deletionRun urls maxRetries retryDelay (mkDeletionOutcome true []) []
| deletion_not_tried :
    urls <> [] -> maxRetries < 0 ->
    deletionRun urls maxRetries retryDelay (mkDeletionOutcome false [])
      [EvConsole (LogAttemptingDelete (length urls))]
| deletion_done (errs : list exn) :
    urls <> [] -> Z.of_nat (length errs) <= maxRetries ->
    deletionRun urls maxRetries retryDelay (mkDeletionOutcome true urls)
      (EvConsole (LogAttemptingDelete (length urls))
         :: failedDeleteRun urls maxRetries retryDelay 0 errs
         ++ successfulDeleteAttempt urls maxRetries (Z.of_nat (length errs)))
| deletion_gave_up (errs : list exn) (e : exn) :
    urls <> [] -> Z.of_nat (length errs) = maxRetries ->
    deletionRun urls maxRetries retryDelay (mkDeletionOutcome false [])
      (EvConsole (LogAttemptingDelete (length urls))
         :: failedDeleteRun urls maxRetries retryDelay 0 errs
         ++ failedDeleteAttempt urls maxRetries maxRetries e
         ++ [EvConsole ErrDeleteMaxRetries]).

(** *** The runs of an upload *)

Definition fewFailures (maxRetries : Z) (r : fileRun) : Prop :=
  Z.of_nat (length (failures r)) <= maxRetries.

(** The guarded compensating deletion started at trace [tr]: skipped when
    nothing was uploaded, otherwise the announcement and one complete run
    of [deleteAntragFiles(uploadedUrls)] with its default retry settings. *)
Inductive cleanUpRun (env : Env) (announcement : consoleLine)
  (uploaded : list jsstring) (tr : World) : list event -> Prop :=
| cleanUp_skipped :
    uploaded = [] ->
    cleanUpRun env announcement uploaded tr []
| cleanUp_deleted (r : DeletionOutcome) (devs : list event) :
    uploaded <> [] ->
    deleteAntragFiles env (Some uploaded) DEFAULT_MAX_RETRIES DEFAULT_RETRY_DELAY
      (tr ++ [EvConsole announcement])
    = (Ok r, (tr ++ [EvConsole announcement]) ++ devs) ->
    deletionRun uploaded DEFAULT_MAX_RETRIES DEFAULT_RETRY_DELAY r devs ->
    cleanUpRun env announcement uploaded tr (EvConsole announcement :: devs).

(** The five ways [uploadAntragFiles(files, maxRetries, retryDelay)] can go
    from trace [tr], each with its result and the events it adds. *)
Inductive uploadRun (env : Env) (maxRetries retryDelay : Z) (cfg : Config)
  (files : option (list File)) (tr : World)
  : outcome (list jsstring) -> list event -> Prop :=
| upload_rejected (e : exn) :
    validateAntragFiles cfg files = Throw e ->
    uploadRun env maxRetries retryDelay cfg files tr (Throw e) []
| upload_nothing :
    validateAntragFiles cfg files = Ok tt ->
    noFiles files = true ->
    uploadRun env maxRetries retryDelay cfg files tr (Ok []) []
| upload_not_tried :
    validateAntragFiles cfg files = Ok tt ->
    noFiles files = false ->
    maxRetries < 0 ->
    uploadRun env maxRetries retryDelay cfg files tr (Ok []) []
| upload_stored (runs : list fileRun) :
    validateAntragFiles cfg files = Ok tt ->
    noFiles files = false ->
    0 <= maxRetries ->
    length runs = length (present files) ->
    Forall (fewFailures maxRetries) runs ->
    uploadRun env maxRetries retryDelay cfg files tr
      (Ok (map storedUrl runs))
      (batchSegments maxRetries retryDelay (getTime env tr)
         (length (present files)) 0 (present files) runs)
| upload_exhausted (pre : list File) (file : File) (post : list File)
    (runs : list fileRun) (fls : list failure) (fl : failure)
    (cleanup : list event) :
    validateAntragFiles cfg files = Ok tt ->
    0 <= maxRetries ->
    present files = pre ++ file :: post ->
    length runs = length pre ->
    Forall (fewFailures maxRetries) runs ->
    Z.of_nat (length fls) = maxRetries ->
    cleanUpRun env LogCleaningUpAfterFailure (map storedUrl runs)
      (tr ++ batchSegments maxRetries retryDelay (getTime env tr)
               (length (present files)) 0 pre runs
          ++ exhaustedSegment maxRetries retryDelay (getTime env tr)
               (length (present files)) (length pre) file fls fl)
      cleanup ->
    uploadRun env maxRetries retryDelay cfg files tr
      (Throw (AppError_fileUpload (fileUploadMessage (name file))))
      (batchSegments maxRetries retryDelay (getTime env tr)
         (length (present files)) 0 pre runs
       ++ exhaustedSegment maxRetries retryDelay (getTime env tr)
            (length (present files)) (length pre) file fls fl
       ++ cleanup).

(** What an event of the file at index [i] can be; the failed attempts it
    reports are numbered in [lo + 1 .. hi]. *)
Definition eventOfFile (maxRetries timestamp : Z) (i : nat) (file : File)
  (lo hi : Z) (ev : event) : Prop :=
  match ev with
  | EvArrayBuffer f _ => f = file
  | EvPut p b o _ =>
      p = pathOf timestamp i file /\ b = mkBlob (data file) (type file)
      /\ o = putOptionsFor file
  | EvDel _ _ => False
  | EvSleep _ => True
  | EvConsole (LogRetryingUpload _ _ _ _) => True
  | EvConsole (LogUploaded _ _ _) => True
  | EvConsole (ErrUploadAttemptFailed a n k _) =>
      lo < a <= hi /\ n = maxRetries + 1 /\ k = Z.of_nat i + 1
  | EvConsole (LogWaiting _) => True
  | EvConsole _ => False
  end.

(** Is the observation a [put] under pathname [p]? *)
Definition obsPutOn (p : jsstring) (o : obs) : bool :=
  match o with
  | ObsPutFailed q => jsstring_eqb q p
  | ObsPutOk q _ => jsstring_eqb q p
  | _ => false
  end.

(** The number of [put] calls made under pathname [p]. *)
Definition putAttemptsOn (p : jsstring) (os : list obs) : nat :=
  length (filter (obsPutOn p) os).

Definition storeFailure (fl : failure) : Prop :=
  match fl with StoreFailed _ => True | ReadFailed _ => False end.

(* ================================================================== *)
(** ** A scripted store and two small batches *)

(** A store that answers by script: the [n]-th [put] is accepted iff the
    [n]-th entry of [puts] is [true], likewise for [del]; calls beyond the
    script are refused.  An accepted blob gets its pathname under a fixed
    origin as URL.  Files are always readable and the clock stands still. *)
Definition scriptedStore (timestamp : Z) (puts dels : list bool) : Env :=
  mkEnv
    (fun _ => timestamp)
    (fun _ _ => None)
    (fun tr pathname _ _ =>
       if nth (length (putPaths tr)) puts false
       then inr (lit "https://blob.example/" ++ pathname)
       else inl (OtherError (lit "store unavailable")))
    (fun tr _ =>
       if nth (length (delCalls tr)) dels false
       then None
       else Some (OtherError (lit "store unavailable"))).

Definition demoTexts : ValidationTexts :=
  mkValidationTexts (lit "too many files") (lit "file too large")
    (lit "file type not allowed").

Definition demoConfig : Config :=
  specConfig 5 5242880 10485760 [lit "application/pdf"; lit "image/png"]
    demoTexts (fun field => field ++ lit " required")
    (fun field _ => field ++ lit " too large").

Definition demoPdf : File :=
  mkFile (lit "Antrag 2024.pdf") (lit "application/pdf") 1024 [].

Definition demoPng : File :=
  mkFile (lit "Anlage.png") (lit "image/png") 2048 [].

Definition demoHuge : File :=
  mkFile (lit "Scan.pdf") (lit "application/pdf") 6000000 [].

Definition demoTime : Z := 1700000000000.

(** Both files are stored at the first attempt. *)
Definition demoStoredRun : outcome (list jsstring) * World :=
  uploadAntragFiles (scriptedStore demoTime [true; true] []) 3 1000 demoConfig
    (Some [demoPdf; demoPng]) [].

(** The first file is stored; the second fails twice, which uses up a
    budget of one retry; the first [del] is refused, the second accepted. *)
Definition demoRolledBackRun : outcome (list jsstring) * World :=
  uploadAntragFiles (scriptedStore demoTime [true; false; false] [false; true])
    1 1000 demoConfig (Some [demoPdf; demoPng]) [].

(** A store that refuses everything, the default budget of three retries. *)
Definition demoRefusedRun : outcome (list jsstring) * World :=
  uploadAntragFiles (scriptedStore demoTime [] []) 3 1000 demoConfig
    (Some [demoPdf]) [].

(** A negative budget. *)
Definition demoNegativeRun : outcome (list jsstring) * World :=
  uploadAntragFiles (scriptedStore demoTime [true] []) (-1) 1000 demoConfig
    (Some [demoPdf]) [].

(* ================================================================== *)
(** * The deployment script

    Two versions of the script are among the sources:
    [prisma/vercel-build.js], which deploys the schema safely, and an
    unnamed one ([unnamed/part_001]), which resets the database and the
    migrations first.  Both are modelled, over the same world. *)

(** The lines the script writes to the console. *)
Inductive buildLine :=
| LogRunningBuild
| LogEnvironment (vercel : bool)
| LogSetupCompleted
| ErrSetup (error : exn).

(** One call into [./db] and what came back: a function that returns a
    value yields its truthiness or throws; [resetDatabase] resolves or
    rejects; [resetMigrations] returns or throws. *)
Inductive buildEvent :=
| BvValidateEnvironment (result : exn + bool)
| BvValidateSchema (result : exn + bool)
| BvResetDatabase (rejected : option exn)
| BvResetMigrations (thrown : option exn)
| BvDeploySchema (result : exn + bool)
| BvDeploySchemaSafely (result : exn + bool)
| BvConsole (line : buildLine).

Definition BuildWorld := list buildEvent.

(** What [require('./db')] gives: the flag, and how each function answers
    given everything that happened so far.  The module itself is not among
    the sources. *)
Record Db := mkDb {
  IS_VERCEL : bool;
  validateEnvironmentOutcome : BuildWorld -> exn + bool;
  validateSchemaOutcome : BuildWorld -> exn + bool;
  resetDatabaseOutcome : BuildWorld -> option exn;
  resetMigrationsOutcome : BuildWorld -> option exn;
  deploySchemaOutcome : BuildWorld -> exn + bool;
  deploySchemaSafelyOutcome : BuildWorld -> exn + bool
}.

(** How a piece of the script ends: normally, by throwing, or by
    [process.exit(code)], which no [catch] clause sees. *)
Inductive completion (A : Type) :=
| Normal (a : A)
| Abrupt (e : exn)
| Exited (code : Z).
Arguments Normal {A} a.
Arguments Abrupt {A} e.
Arguments Exited {A} code.

Definition B (A : Type) := BuildWorld -> completion A * BuildWorld.

Definition bret {A} (a : A) : B A := fun tr => (Normal a, tr).

Definition bbind {A C} (m : B A) (k : A -> B C) : B C :=
  fun tr =>
    match m tr with
    | (Normal a, tr') => k a tr'
    | (Abrupt e, tr') => (Abrupt e, tr')
    | (Exited code, tr') => (Exited code, tr')
    end.

(** [try { body } catch (error) { handler }] *)
Definition bcatch {A} (body : B A) (handler : exn -> B A) : B A :=
  fun tr =>
    match body tr with
    | (Abrupt e, tr') => handler e tr'
    | r => r
    end.

(** [process.exit(code)] *)
Definition processExit {A} (code : Z) : B A := fun tr => (Exited code, tr).

Definition buildConsole (line : buildLine) : B unit :=
  fun tr => (Normal tt, tr ++ [BvConsole line]).

(** A call that returns a value or throws. *)
Definition callValue (outcomeOf : BuildWorld -> exn + bool)
  (record : exn + bool -> buildEvent) : B bool :=
  fun tr =>
    match outcomeOf tr with
    | inr v => (Normal v, tr ++ [record (inr v)])
    | inl e => (Abrupt e, tr ++ [record (inl e)])
    end.

(** A call made for its effect, which may throw or reject. *)
Definition callEffect (outcomeOf : BuildWorld -> option exn)
  (record : option exn -> buildEvent) : B unit :=
  fun tr =>
    match outcomeOf tr with
    | None => (Normal tt, tr ++ [record None])
    | Some e => (Abrupt e, tr ++ [record (Some e)])
    end.

Declare Scope build_scope.
Notation "x <- m ;; k" := (bbind m (fun x => k))
  (at level 61, m at next level, right associativity) : build_scope.
Notation "m ;; k" := (bbind m (fun _ => k))
  (at level 61, right associativity) : build_scope.
Local Open Scope build_scope.

(** [prisma/vercel-build.js] *)
Module SafeBuild.

(** [async function main()] *)
Definition main (db : Db) : B unit :=
  bcatch
    (valid <- callValue (validateEnvironmentOutcome db) BvValidateEnvironment ;;
     (if negb valid then processExit 1 else bret tt) ;;
     valid <- callValue (validateSchemaOutcome db) BvValidateSchema ;;
     (if negb valid then processExit 1 else bret tt) ;;
     deployed <-
       callValue (deploySchemaSafelyOutcome db) BvDeploySchemaSafely ;;
     (if negb deployed then processExit 1 else bret tt) ;;
     buildConsole LogSetupCompleted ;;
     processExit 0)
    (fun error =>
       buildConsole (ErrSetup error) ;;
       processExit 1).

(** The script as a whole: the two opening lines, then [main()]. *)
Definition script (db : Db) : B unit :=
  buildConsole LogRunningBuild ;;
  buildConsole (LogEnvironment (IS_VERCEL db)) ;;
  main db.

End SafeBuild.

(** [unnamed/part_001] *)
Module ResetBuild.

(** [async function main()] *)
Definition main (db : Db) : B unit :=
  bcatch
    (valid <- callValue (validateEnvironmentOutcome db) BvValidateEnvironment ;;
     (if negb valid then processExit 1 else bret tt) ;;
     valid <- callValue (validateSchemaOutcome db) BvValidateSchema ;;
     (if negb valid then processExit 1 else bret tt) ;;
     (if IS_VERCEL db
      then callEffect (resetDatabaseOutcome db) BvResetDatabase
      else bret tt) ;;
     callEffect (resetMigrationsOutcome db) BvResetMigrations ;;
     deployed <- callValue (deploySchemaOutcome db) BvDeploySchema ;;
     (if negb deployed then processExit 1 else bret tt) ;;
     buildConsole LogSetupCompleted ;;
     processExit 0)
    (fun error =>
       buildConsole (ErrSetup error) ;;
       processExit 1).

(** The script as a whole: the two opening lines, then [main()]. *)
Definition script (db : Db) : B unit :=
  buildConsole LogRunningBuild ;;
  buildConsole (LogEnvironment (IS_VERCEL db)) ;;
  main db.

End ResetBuild.

Local Close Scope build_scope.

(** The steps of the set-up. *)
Inductive buildStep :=
| StepValidateEnvironment
| StepValidateSchema
| StepResetDatabase
| StepResetMigrations
| StepDeploySchema
| StepDeploySchemaSafely.

(** The order of the steps of the safe script. *)
Definition safePlan : list buildStep :=
  [StepValidateEnvironment; StepValidateSchema; StepDeploySchemaSafely].

(** The order of the steps of the resetting script; the database is reset
    on Vercel only. *)
Definition resetPlan (vercel : bool) : list buildStep :=
  [StepValidateEnvironment; StepValidateSchema]
    ++ (if vercel then [StepResetDatabase] else [])
    ++ [StepResetMigrations; StepDeploySchema].

Definition truthy (result : exn + bool) : bool :=
  match result with inr v => v | inl _ => false end.

Definition unharmed (failed : option exn) : bool :=
  match failed with None => true | Some _ => false end.

(** The steps a trace went through, each with whether it succeeded: a
    check succeeds by returning a truthy value, an action by not throwing. *)
Definition stepsOf (evs : list buildEvent) : list (buildStep * bool) :=
  flat_map (fun ev =>
              match ev with
              | BvValidateEnvironment r => [(StepValidateEnvironment, truthy r)]
              | BvValidateSchema r => [(StepValidateSchema, truthy r)]
              | BvResetDatabase f => [(StepResetDatabase, unharmed f)]
              | BvResetMigrations f => [(StepResetMigrations, unharmed f)]
              | BvDeploySchema r => [(StepDeploySchema, truthy r)]
              | BvDeploySchemaSafely r => [(StepDeploySchemaSafely, truthy r)]
              | BvConsole _ => []
              end) evs.

(* ================================================================== *)
(** * Further readings of an upload or deletion trace *)

(** The waits of a trace, in order, and their sum. *)
Definition waits (evs : list event) : list Z :=
  flat_map (fun e => match e with EvSleep ms => [ms] | _ => [] end) evs.

Definition totalWait (evs : list event) : Z := fold_right Z.add 0 (waits evs).

(** [n] refused [del] calls, each followed by its wait, the first wait
    being [retryDelay * 2 ^ attempt]. *)
Fixpoint refusedWithWaits (urls : list jsstring) (retryDelay attempt : Z)
  (n : nat) : list obs :=
  match n with
  | O => []
  | S n' =>
      ObsDel urls false :: ObsSleep (retryDelay * 2 ^ attempt)
        :: refusedWithWaits urls retryDelay (attempt + 1) n'
  end.

(** How many of the failures came from the store. *)
Definition storeFailureCount (fls : list failure) : nat :=
  length (filter (fun fl => match fl with
                            | StoreFailed _ => true
                            | ReadFailed _ => false
                            end) fls).

(** Each pathname as often as its count says, block after block. *)
Definition putBlocks (blocks : list (jsstring * nat)) : list jsstring :=
  flat_map (fun b => repeat (fst b) (snd b)) blocks.

(** The list a call returned, if it returned one. *)
Definition returned (o : outcome (list jsstring)) : list jsstring :=
  match o with
  | Ok urls => urls
  | _ => []
  end.

(** Neither white space nor a dash. *)
Definition plainChar (c : char16) : bool :=
  negb (isWhiteSpace c) && negb (N.eqb c DASH).

(** A [./db] on Vercel whose steps all succeed. *)
Definition demoDb : Db :=
  mkDb true (fun _ => inr true) (fun _ => inr true) (fun _ => None)
    (fun _ => None) (fun _ => inr true) (fun _ => inr true).

(** Three files of 4 MiB: each is under the per-file limit of 5 MiB of
    [demoConfig], together they exceed its total limit of 10 MiB. *)
Definition demoFourMiB (fileName : jsstring) : File :=
  mkFile fileName (lit "application/pdf") 4194304 [].

Definition demoLargeBatch : list File :=
  [demoFourMiB (lit "a.pdf"); demoFourMiB (lit "b.pdf");
   demoFourMiB (lit "c.pdf")].




(* ================================================================== *)
(** ** Running the primitives *)

Lemma when_console_run (b : bool) (line : consoleLine) (tr : World) :
  when b (console line) tr = (Ok tt, tr ++ (if b then [EvConsole line] else [])).
Proof.
  destruct b; simpl; unfold console, emit, ret; rewrite ?app_nil_r; reflexivity.
Qed.

Lemma noFiles_cons {A} (x : A) (l : list A) : noFiles (Some (x :: l)) = false.
Proof. unfold noFiles. apply Z.eqb_neq. simpl length. lia. Qed.

Lemma nonempty_length_pos {A} (l : list A) :
  l <> [] -> (0 <? Z.of_nat (length l)) = true.
Proof. destruct l; [congruence|]; intros _; apply Z.ltb_lt; simpl length; lia. Qed.

(** ** [deleteAntragFiles] *)

Section DeletionFacts.

Variable env : Env.
Variable urls : list jsstring.
Variable maxRetries retryDelay : Z.

Lemma deleteTry_run (attempt : Z) (remaining : list jsstring) (tr : World) :
  deleteTry env maxRetries attempt [] remaining tr
  = match delOutcome env (tr ++ deleteRetryNote maxRetries attempt) remaining with
    | None =>
        (Ok (Return (mkDeletionOutcome true remaining)),
         tr ++ successfulDeleteAttempt remaining maxRetries attempt)
    | Some e =>
        (Throw e,
         tr ++ deleteRetryNote maxRetries attempt ++ [EvDel remaining (Some e)])
    end.
Proof.
  unfold deleteTry, bind. rewrite when_console_run.
  fold (deleteRetryNote maxRetries attempt). unfold del.
  destruct (delOutcome env (tr ++ deleteRetryNote maxRetries attempt) remaining).
  - rewrite <- app_assoc. reflexivity.
  - unfold console, emit, ret, successfulDeleteAttempt. cbn [app].
    rewrite <- !app_assoc. reflexivity.
Qed.

Lemma deleteCatch_run (attempt : Z) (e : exn) (tr : World) :
  deleteCatch maxRetries retryDelay attempt [] e tr
  = if attempt >=? maxRetries
    then (Ok (Return (mkDeletionOutcome false [])),
          tr ++ [EvConsole (ErrDeleteAttemptFailed (attempt + 1) (maxRetries + 1) e);
                 EvConsole ErrDeleteMaxRetries])
    else (Ok (Continue (attempt + 1)),
          tr ++ [EvConsole (ErrDeleteAttemptFailed (attempt + 1) (maxRetries + 1) e)]
             ++ backoffWait retryDelay attempt).
Proof.
  unfold deleteCatch, bind, console, sleep, emit, ret, backoffWait.
  destruct (attempt >=? maxRetries); rewrite <- !app_assoc; reflexivity.
Qed.

Hypothesis urls_nonempty : urls <> [].

Lemma deleteAttempts_shape (fuel : nat) :
  forall (attempt : Z) (tr : World),
    0 <= attempt <= maxRetries ->
    (Z.to_nat (maxRetries - attempt) < fuel)%nat ->
    exists errs : list exn,
      (attempt + Z.of_nat (length errs) <= maxRetries /\
       deleteAttempts env urls maxRetries retryDelay fuel attempt [] urls tr
       = (Ok (mkDeletionOutcome true urls),
          tr ++ failedDeleteRun urls maxRetries retryDelay attempt errs
             ++ successfulDeleteAttempt urls maxRetries
                  (attempt + Z.of_nat (length errs))))
      \/
      (exists e : exn,
         attempt + Z.of_nat (length errs) = maxRetries /\
         deleteAttempts env urls maxRetries retryDelay fuel attempt [] urls tr
         = (Ok (mkDeletionOutcome false []),
            tr ++ failedDeleteRun urls maxRetries retryDelay attempt errs
               ++ failedDeleteAttempt urls maxRetries maxRetries e
               ++ [EvConsole ErrDeleteMaxRetries])).
Proof.
  induction fuel as [|fuel IH]; intros attempt tr Hrange Hfuel; [lia|].
  cbn [deleteAttempts].
  replace (attempt <=? maxRetries) with true by (symmetry; apply Z.leb_le; lia).
  rewrite (nonempty_length_pos urls urls_nonempty). cbn [andb].
  unfold bind, try_catch. rewrite deleteTry_run.
  destruct (delOutcome env (tr ++ deleteRetryNote maxRetries attempt) urls)
    as [e|] eqn:Hdel.
  - (* the store refused *)
    rewrite deleteCatch_run.
    destruct (attempt >=? maxRetries) eqn:Hlast.
    + exists []. right. exists e. cbn [length failedDeleteRun].
      assert (attempt = maxRetries) by (apply Z.geb_le in Hlast; lia). subst attempt.
      split; [lia|].
      unfold ret, failedDeleteAttempt. rewrite <- !app_assoc. reflexivity.
    + assert (attempt < maxRetries)
        by (rewrite Z.geb_leb in Hlast; apply Z.leb_gt in Hlast; lia).
      destruct (IH (attempt + 1)
                  ((tr ++ deleteRetryNote maxRetries attempt ++ [EvDel urls (Some e)])
                     ++ [EvConsole (ErrDeleteAttemptFailed (attempt + 1)
                                      (maxRetries + 1) e)]
                     ++ backoffWait retryDelay attempt))
        as [errs [[Hle Hrun]|[e' [Heq Hrun]]]]; try lia.
      * exists (e :: errs). left. cbn [length failedDeleteRun].
        split; [lia|].
        replace (attempt + Z.of_nat (S (length errs)))
          with (attempt + 1 + Z.of_nat (length errs)) by lia.
        rewrite Hrun. f_equal.
        unfold failedDeleteAttempt. rewrite <- !app_assoc. reflexivity.
      * exists (e :: errs). right. exists e'. cbn [length failedDeleteRun].
        split; [lia|].
        rewrite Hrun. f_equal.
        unfold failedDeleteAttempt. rewrite <- !app_assoc. cbn [app].
        reflexivity.
  - exists []. left. cbn [length failedDeleteRun].
    split; [lia|].
    unfold ret. rewrite Z.add_0_r. reflexivity.
Qed.

End DeletionFacts.

Lemma deleteAntragFiles_run (env : Env) (urls : option (list jsstring))
  (maxRetries retryDelay : Z) (tr : World) :
  exists (r : DeletionOutcome) (new : list event),
    deleteAntragFiles env urls maxRetries retryDelay tr = (Ok r, tr ++ new)
    /\ deletionRun (present urls) maxRetries retryDelay r new.
Proof.
  unfold deleteAntragFiles.
  destruct urls as [[|u us]|].
  1,3: exists (mkDeletionOutcome true []), []; rewrite app_nil_r;
       split; [reflexivity | constructor; reflexivity].
  rewrite noFiles_cons. cbn [present].
  set (urls := u :: us). assert (Hne : urls <> []) by (subst urls; congruence).
  unfold bind, console, emit.
  destruct (Z.ltb_spec maxRetries 0) as [Hneg|Hpos].
  - exists (mkDeletionOutcome false []), [EvConsole (LogAttemptingDelete (length urls))].
    split; [|constructor; assumption].
    replace (Z.to_nat (maxRetries + 1)) with O by lia. cbn [deleteAttempts].
    replace (0 <=? maxRetries) with false by (symmetry; apply Z.leb_gt; lia).
    cbn [andb]. unfold ret. subst urls. reflexivity.
  - destruct (deleteAttempts_shape env urls maxRetries retryDelay Hne
                (Z.to_nat (maxRetries + 1)) 0
                (tr ++ [EvConsole (LogAttemptingDelete (length urls))]))
      as [errs [[Hle Hrun]|[e [Heq Hrun]]]]; try lia.
    + exists (mkDeletionOutcome true urls).
      eexists. split.
      2:{ apply (deletion_done urls maxRetries retryDelay errs);
          [assumption|lia]. }
      rewrite Hrun, <- app_assoc. reflexivity.
    + exists (mkDeletionOutcome false []).
      eexists. split.
      2:{ apply (deletion_gave_up urls maxRetries retryDelay errs e);
          [assumption|lia]. }
      rewrite Hrun, <- app_assoc. reflexivity.
Qed.

(** ** One upload attempt *)

Lemma liftW_run {A} (m : M World A) (st : UploadState) :
  liftW m st = (fst (m (trace st)), mkUploadState (snd (m (trace st))) (uploadedUrls st)).
Proof. unfold liftW. destruct (m (trace st)); reflexivity. Qed.

Lemma bind_liftW_emit {B} (e : event) (k : unit -> M UploadState B)
  (st : UploadState) :
  bind (liftW (emit e)) k st
  = k tt (mkUploadState (trace st ++ [e]) (uploadedUrls st)).
Proof. reflexivity. Qed.

Section UploadFacts.

Variable env : Env.
Variable maxRetries retryDelay : Z.
Variable timestamp : Z.
Variable total : nat.

Lemma cleanUp_run (announcement : consoleLine) (st : UploadState) :
  cleanUp env announcement st
  = (Ok tt,
     mkUploadState
       (cleanUpTrace env announcement (uploadedUrls st) (trace st))
       (uploadedUrls st)).
Proof.
  unfold cleanUp, cleanUpTrace, bind, getUploadedUrls, when.
  destruct (0 <? Z.of_nat (length (uploadedUrls st))).
  - unfold try_catch, bind. rewrite !liftW_run. cbn [fst snd console emit trace uploadedUrls].
    destruct (deleteAntragFiles_run env (Some (uploadedUrls st)) DEFAULT_MAX_RETRIES
                DEFAULT_RETRY_DELAY (trace st ++ [EvConsole announcement]))
      as (r & new & Hrun & _).
    rewrite Hrun. reflexivity.
  - destruct st; reflexivity.
Qed.

Section OneFile.

Variable i : nat.
Variable file : File.

(** One pass through the loop body either stores the file, or fails and
    waits, or fails for the last time, cleans up and throws. *)
Lemma upload_attempt_cases (attempt : Z) (st : UploadState) :
  (exists url,
      try_catch
        (uploadTry env maxRetries total i file (pathOf timestamp i file)
           attempt)
        (uploadRetry env maxRetries retryDelay i file attempt) st
      = (Ok (attempt, true),
         mkUploadState
           (trace st ++ successfulUploadAttempt maxRetries timestamp total
                          i file attempt url)
           (uploadedUrls st ++ [url])))
  \/
  (exists fl,
      try_catch
        (uploadTry env maxRetries total i file (pathOf timestamp i file)
           attempt)
        (uploadRetry env maxRetries retryDelay i file attempt) st
      = if attempt >=? maxRetries
        then (Throw (AppError_fileUpload (fileUploadMessage (name file))),
              mkUploadState
                (cleanUpTrace env LogCleaningUpAfterFailure (uploadedUrls st)
                   (trace st ++ failedUploadAttempt maxRetries timestamp
                                  total i file attempt fl))
                (uploadedUrls st))
        else (Ok (attempt + 1, false),
              mkUploadState
                (trace st ++ failedUploadAttempt maxRetries timestamp total
                               i file attempt fl
                          ++ backoffWait retryDelay attempt)
                (uploadedUrls st))).
Proof.
  assert (Hretry : forall (fl : failure) (tr : World),
             uploadRetry env maxRetries retryDelay i file attempt
               (failureError fl)
               (mkUploadState
                  (tr ++ uploadRetryNote maxRetries total i attempt
                      ++ failedCalls timestamp i file fl)
                  (uploadedUrls st))
             = if attempt >=? maxRetries
               then (Throw (AppError_fileUpload (fileUploadMessage (name file))),
                     mkUploadState
                       (cleanUpTrace env LogCleaningUpAfterFailure (uploadedUrls st)
                          (tr ++ failedUploadAttempt maxRetries timestamp
                                   total i file attempt fl))
                       (uploadedUrls st))
               else (Ok (attempt + 1, false),
                     mkUploadState
                       (tr ++ failedUploadAttempt maxRetries timestamp total
                                i file attempt fl
                           ++ backoffWait retryDelay attempt)
                       (uploadedUrls st))).
  { intros fl tr. unfold uploadRetry, console, sleep.
    rewrite bind_liftW_emit. cbn [trace uploadedUrls].
    destruct (attempt >=? maxRetries).
    - unfold bind. rewrite cleanUp_run. cbn [trace uploadedUrls]. unfold throw.
      unfold failedUploadAttempt. rewrite <- !app_assoc. reflexivity.
    - rewrite !bind_liftW_emit. cbn [trace uploadedUrls]. unfold ret.
      unfold failedUploadAttempt, backoffWait. rewrite <- !app_assoc.
      reflexivity. }
  assert (Htry :
            uploadTry env maxRetries total i file (pathOf timestamp i file)
              attempt st
            = match arrayBufferOutcome env
                      (trace st ++ uploadRetryNote maxRetries total i attempt)
                      file with
              | Some e =>
                  (Throw (failureError (ReadFailed e)),
                   mkUploadState
                     (trace st ++ uploadRetryNote maxRetries total i attempt
                        ++ failedCalls timestamp i file (ReadFailed e))
                     (uploadedUrls st))
              | None =>
                  match putOutcome env
                          ((trace st ++ uploadRetryNote maxRetries total i attempt)
                             ++ [EvArrayBuffer file None]) (pathOf timestamp i file)
                          (mkBlob (data file) (type file)) (putOptionsFor file)
                  with
                  | inl e =>
                      (Throw (failureError (StoreFailed e)),
                       mkUploadState
                         (trace st ++ uploadRetryNote maxRetries total i attempt
                            ++ failedCalls timestamp i file (StoreFailed e))
                         (uploadedUrls st))
                  | inr url =>
                      (Ok (attempt, true),
                       mkUploadState
                         (trace st ++ successfulUploadAttempt maxRetries
                                        timestamp total i file attempt url)
                         (uploadedUrls st ++ [url]))
                  end
              end).
  { unfold uploadTry, bind, liftW. rewrite when_console_run.
    fold (uploadRetryNote maxRetries total i attempt).
    cbn [trace uploadedUrls]. unfold arrayBuffer.
    destruct (arrayBufferOutcome env
                (trace st ++ uploadRetryNote maxRetries total i attempt) file).
    { cbn [failureError failedCalls]. rewrite <- app_assoc. reflexivity. }
    cbn [trace uploadedUrls]. unfold put.
    destruct (putOutcome env
                ((trace st ++ uploadRetryNote maxRetries total i attempt)
                   ++ [EvArrayBuffer file None]) (pathOf timestamp i file)
                (mkBlob (data file) (type file)) (putOptionsFor file)).
    { cbn [failureError failedCalls]. rewrite <- !app_assoc. reflexivity. }
    unfold pushUrl, console, emit, ret, successfulUploadAttempt.
    cbn [trace uploadedUrls]. rewrite <- !app_assoc. reflexivity. }
  unfold try_catch. rewrite Htry.
  destruct (arrayBufferOutcome env
              (trace st ++ uploadRetryNote maxRetries total i attempt) file).
  { right. exists (ReadFailed e). apply Hretry. }
  destruct (putOutcome env
              ((trace st ++ uploadRetryNote maxRetries total i attempt)
                 ++ [EvArrayBuffer file None]) (pathOf timestamp i file)
              (mkBlob (data file) (type file)) (putOptionsFor file))
    as [e|url].
  { right. exists (StoreFailed e). apply Hretry. }
  left. exists url. reflexivity.
Qed.

(** The loop of one file, started with enough fuel: the file is stored
    after at most [maxRetries] failures, or all attempts fail. *)
Lemma uploadAttempts_shape (fuel : nat) :
  forall (attempt : Z) (st : UploadState),
    0 <= attempt <= maxRetries ->
    (Z.to_nat (maxRetries - attempt) < fuel)%nat ->
    exists fls : list failure,
      (exists url,
          attempt + Z.of_nat (length fls) <= maxRetries /\
          uploadAttempts env maxRetries retryDelay total i file
            (pathOf timestamp i file) fuel
            attempt false st
          = (Ok tt,
             mkUploadState
               (trace st
                  ++ failedUploadRun maxRetries retryDelay timestamp total
                       i file attempt fls
                  ++ successfulUploadAttempt maxRetries timestamp total
                       i file (attempt + Z.of_nat (length fls)) url)
               (uploadedUrls st ++ [url])))
      \/
      (exists fl,
          attempt + Z.of_nat (length fls) = maxRetries /\
          uploadAttempts env maxRetries retryDelay total i file
            (pathOf timestamp i file) fuel
            attempt false st
          = (Throw (AppError_fileUpload (fileUploadMessage (name file))),
             mkUploadState
               (cleanUpTrace env LogCleaningUpAfterFailure (uploadedUrls st)
                  (trace st
                     ++ failedUploadRun maxRetries retryDelay timestamp total
                          i file attempt fls
                     ++ failedUploadAttempt maxRetries timestamp total
                          i file maxRetries fl))
               (uploadedUrls st))).
Proof.
  induction fuel as [|fuel IH]; intros attempt st Hrange Hfuel; [lia|].
  cbn [uploadAttempts].
  replace (attempt <=? maxRetries) with true by (symmetry; apply Z.leb_le; lia).
  cbn [andb negb]. unfold bind.
  destruct (upload_attempt_cases attempt st) as [[url Hrun]|[fl Hrun]];
    rewrite Hrun; clear Hrun.
  - (* stored at this attempt *)
    exists []. left. exists url. cbn [length failedUploadRun Z.of_nat fst snd].
    split; [lia|].
    destruct fuel; cbn [uploadAttempts]; rewrite andb_false_r, Z.add_0_r;
      reflexivity.
  - destruct (attempt >=? maxRetries) eqn:Hlast.
    + (* the last attempt failed *)
      assert (attempt = maxRetries) by (apply Z.geb_le in Hlast; lia).
      subst attempt.
      exists []. right. exists fl. cbn [length failedUploadRun Z.of_nat app].
      split; [lia|reflexivity].
    + assert (attempt < maxRetries)
        by (rewrite Z.geb_leb in Hlast; apply Z.leb_gt in Hlast; lia).
      cbn [fst snd].
      destruct (IH (attempt + 1)
                  (mkUploadState
                     (trace st
                        ++ failedUploadAttempt maxRetries timestamp total
                             i file attempt fl
                        ++ backoffWait retryDelay attempt)
                     (uploadedUrls st)))
        as [fls [[url [Hle Hrun]]|[fl' [Heq Hrun]]]]; try lia;
        exists (fl :: fls); [left; exists url | right; exists fl'];
        cbn [length failedUploadRun];
        (split; [lia|]);
        replace (attempt + Z.of_nat (S (length fls)))
          with (attempt + 1 + Z.of_nat (length fls)) by lia;
        rewrite Hrun; cbn [trace uploadedUrls]; rewrite <- !app_assoc;
        reflexivity.
Qed.

End OneFile.

(** The loop over the files: all are stored, or one uses up its attempts
    after the files before it were stored. *)
Lemma uploadFrom_shape (rest : list File) :
  0 <= maxRetries ->
  forall (i : nat) (st : UploadState),
    (exists runs : list fileRun,
        length runs = length rest /\ Forall (fewFailures maxRetries) runs /\
        uploadFrom env maxRetries retryDelay timestamp total i rest st
        = (Ok tt,
           mkUploadState
             (trace st ++ batchSegments maxRetries retryDelay timestamp total
                            i rest runs)
             (uploadedUrls st ++ map storedUrl runs)))
    \/
    (exists pre file post runs fls fl,
        rest = pre ++ file :: post /\
        length runs = length pre /\ Forall (fewFailures maxRetries) runs /\
        Z.of_nat (length fls) = maxRetries /\
        uploadFrom env maxRetries retryDelay timestamp total i rest st
        = (Throw (AppError_fileUpload (fileUploadMessage (name file))),
           mkUploadState
             (cleanUpTrace env LogCleaningUpAfterFailure
                (uploadedUrls st ++ map storedUrl runs)
                (trace st
                   ++ batchSegments maxRetries retryDelay timestamp total
                        i pre runs
                   ++ exhaustedSegment maxRetries retryDelay timestamp total
                        (i + length pre) file fls fl))
             (uploadedUrls st ++ map storedUrl runs))).
Proof.
  intros Hpos. induction rest as [|file rest' IH]; intros i st.
  - left. exists []. cbn. rewrite !app_nil_r. destruct st. repeat split; constructor.
  - cbn [uploadFrom]. unfold bind.
    fold (pathOf timestamp i file).
    destruct (uploadAttempts_shape i file (Z.to_nat (maxRetries + 1)) 0 st)
      as [fls [[url [Hle Hrun]]|[fl [Heq Hrun]]]]; try lia; rewrite Hrun; clear Hrun.
    + destruct (IH (S i)
                  (mkUploadState
                     (trace st
                        ++ failedUploadRun maxRetries retryDelay timestamp total
                             i file 0 fls
                        ++ successfulUploadAttempt maxRetries timestamp total
                             i file (0 + Z.of_nat (length fls)) url)
                     (uploadedUrls st ++ [url])))
        as [(runs & Hlen & Hfew & Hrun)
           |(pre & file' & post & runs & fls' & fl & Hsplit & Hlen & Hfew & Hfls & Hrun)];
        rewrite Hrun; clear Hrun; cbn [trace uploadedUrls].
      * left. exists (mkFileRun fls url :: runs). cbn [length map storedUrl].
        split; [lia|]. split; [constructor; [unfold fewFailures; cbn; lia|assumption]|].
        cbn [batchSegments]. unfold fileSegment. cbn [failures storedUrl].
        rewrite <- !app_assoc. reflexivity.
      * right. exists (file :: pre), file', post, (mkFileRun fls url :: runs), fls', fl.
        cbn [length map storedUrl app].
        split; [rewrite Hsplit; reflexivity|]. split; [lia|].
        split; [constructor; [unfold fewFailures; cbn; lia|assumption]|].
        split; [assumption|].
        cbn [batchSegments]. unfold fileSegment. cbn [failures storedUrl].
        replace (i + S (length pre))%nat with (S i + length pre)%nat by lia.
        rewrite <- !app_assoc. reflexivity.
    + right. exists [], file, rest', [], fls, fl.
      cbn [length map app batchSegments]. rewrite Nat.add_0_r, app_nil_r.
      split; [reflexivity|]. split; [reflexivity|]. split; [constructor|].
      split; [lia|]. unfold exhaustedSegment. reflexivity.
Qed.

(** With a negative retry budget the loop body of no file ever runs. *)
Lemma uploadFrom_not_tried (rest : list File) :
  maxRetries < 0 ->
  forall (i : nat) (st : UploadState),
    uploadFrom env maxRetries retryDelay timestamp total i rest st = (Ok tt, st).
Proof.
  intros Hneg. induction rest as [|file rest' IH]; intros i st; [reflexivity|].
  cbn [uploadFrom]. unfold bind.
  replace (Z.to_nat (maxRetries + 1)) with O by lia. cbn [uploadAttempts].
  replace (0 <=? maxRetries) with false by (symmetry; apply Z.leb_gt; lia).
  cbn [andb]. unfold ret at 1. apply IH.
Qed.

End UploadFacts.


Lemma cleanUpTrace_run (env : Env) (announcement : consoleLine)
  (uploaded : list jsstring) (tr : World) :
  exists cleanup : list event,
    cleanUpTrace env announcement uploaded tr = tr ++ cleanup
    /\ cleanUpRun env announcement uploaded tr cleanup.
Proof.
  unfold cleanUpTrace. destruct uploaded as [|u us].
  - exists []. rewrite app_nil_r. split; [reflexivity|constructor; reflexivity].
  - rewrite nonempty_length_pos by congruence.
    destruct (deleteAntragFiles_run env (Some (u :: us)) DEFAULT_MAX_RETRIES
                DEFAULT_RETRY_DELAY (tr ++ [EvConsole announcement]))
      as (r & devs & Hrun & Hshape).
    exists (EvConsole announcement :: devs). rewrite Hrun. cbn [snd].
    split; [rewrite <- app_assoc; reflexivity|].
    apply (cleanUp_deleted env announcement (u :: us) tr r devs);
      [congruence|assumption|assumption].
Qed.

Lemma validateAntragFiles_cases (cfg : Config) (files : option (list File)) :
  validateAntragFiles cfg files = Ok tt
  \/ exists fields, validateAntragFiles cfg files = Throw (ValidationError fields).
Proof.
  unfold validateAntragFiles.
  destruct (noFiles files); [left; reflexivity|].
  destruct (negb _ && _); [right; eexists; reflexivity|].
  destruct (_ >? _); [right; eexists; reflexivity|left; reflexivity].
Qed.

(** Every call of [uploadAntragFiles] is one of the runs of [uploadRun]; in
    particular it returns or throws, and the trace only grows. *)
Lemma upload_run (env : Env) (maxRetries retryDelay : Z) (cfg : Config)
  (files : option (list File)) (tr : World) :
  exists (r : outcome (list jsstring)) (new : list event),
    uploadAntragFiles env maxRetries retryDelay cfg files tr = (r, tr ++ new)
    /\ uploadRun env maxRetries retryDelay cfg files tr r new.
Proof.
  unfold uploadAntragFiles, bind at 1, pure.
  destruct (validateAntragFiles_cases cfg files) as [Hval|[fields Hval]].
  2:{ rewrite Hval. exists (Throw (ValidationError fields)), [].
      rewrite app_nil_r. split; [reflexivity|constructor; assumption]. }
  rewrite Hval.
  destruct (noFiles files) eqn:Hnone.
  { exists (Ok []), []. rewrite app_nil_r.
    split; [reflexivity|apply upload_nothing; assumption]. }
  unfold withUploadedUrls, bind, try_catch, liftW, now, getUploadedUrls.
  cbn [trace uploadedUrls].
  destruct (Z.ltb_spec maxRetries 0) as [Hneg|Hpos].
  { rewrite uploadFrom_not_tried by assumption.
    exists (Ok []), []. rewrite app_nil_r.
    split; [reflexivity|apply upload_not_tried; assumption]. }
  destruct (uploadFrom_shape env maxRetries retryDelay (getTime env tr)
              (length (present files)) (present files) Hpos 0
              (mkUploadState tr []))
    as [(runs & Hlen & Hfew & Hrun)
       |(pre & file & post & runs & fls & fl & Hsplit & Hlen & Hfew & Hfls & Hrun)];
    rewrite Hrun; clear Hrun; cbn [trace uploadedUrls app Nat.add].
  - eexists. eexists. split; [reflexivity|].
    apply upload_stored; assumption.
  - unfold uploadCatch, AppError_fileUpload.
    cbn [instanceofValidationError instanceofAppError orb]. unfold throw.
    cbn [trace].
    destruct (cleanUpTrace_run env LogCleaningUpAfterFailure (map storedUrl runs)
                (tr ++ batchSegments maxRetries retryDelay (getTime env tr)
                         (length (present files)) 0 pre runs
                    ++ exhaustedSegment maxRetries retryDelay (getTime env tr)
                         (length (present files)) (length pre) file fls fl))
      as (cleanup & Htrace & Hclean).
    rewrite Htrace.
    eexists. eexists. split; [rewrite <- !app_assoc; reflexivity|].
    apply (upload_exhausted env maxRetries retryDelay cfg files tr pre file post
             runs fls fl cleanup); assumption.
Qed.

(** ** Reading the shapes *)

Lemma observe_app (a b : list event) : observe (a ++ b) = observe a ++ observe b.
Proof. apply flat_map_app. Qed.

Lemma storedBlobs_app (a b : list event) :
  storedBlobs (a ++ b) = storedBlobs a ++ storedBlobs b.
Proof. apply flat_map_app. Qed.

Lemma putPaths_app (a b : list event) : putPaths (a ++ b) = putPaths a ++ putPaths b.
Proof. apply flat_map_app. Qed.

Lemma delCalls_app (a b : list event) : delCalls (a ++ b) = delCalls a ++ delCalls b.
Proof. apply flat_map_app. Qed.

Lemma putPaths_In (p : jsstring) (evs : list event) :
  In p (putPaths evs) <-> exists b o res, In (EvPut p b o res) evs.
Proof.
  unfold putPaths. rewrite in_flat_map. split.
  - intros (ev & Hin & Hp). destruct ev; cbn in Hp; try contradiction.
    destruct Hp as [<-|[]]. eauto.
  - intros (b & o & res & Hin). eexists. split; [eassumption|]. left. reflexivity.
Qed.

Lemma delCalls_In (us : list jsstring) (ok : bool) (evs : list event) :
  In (us, ok) (delCalls evs) ->
  exists rejected, In (EvDel us rejected) evs
                   /\ ok = match rejected with None => true | Some _ => false end.
Proof.
  unfold delCalls. rewrite in_flat_map. intros (ev & Hin & Hc).
  destruct ev as [| |us' [e|]| |]; cbn in Hc; try contradiction;
    destruct Hc as [Hc|[]]; inversion Hc; subst; eauto.
Qed.

Section ShapeFacts.

Variable maxRetries retryDelay : Z.
Variable timestamp : Z.
Variable total : nat.


Lemma eventOfFile_weaken (i : nat) (file : File) (lo hi lo' hi' : Z) (ev : event) :
  lo' <= lo -> hi <= hi' ->
  eventOfFile maxRetries timestamp i file lo hi ev ->
  eventOfFile maxRetries timestamp i file lo' hi' ev.
Proof.
  intros Hlo Hhi. destruct ev as [| | | |[]]; cbn; try tauto. intuition lia.
Qed.

Lemma failedUploadAttempt_events (i : nat) (file : File) (attempt : Z)
  (fl : failure) :
  Forall (eventOfFile maxRetries timestamp i file attempt (attempt + 1))
    (failedUploadAttempt maxRetries timestamp total i file attempt fl).
Proof.
  unfold failedUploadAttempt, uploadRetryNote.
  destruct (0 <? attempt), fl; cbn;
    repeat (constructor; cbn; try tauto; try (repeat split; (reflexivity || lia))).
Qed.

Lemma successfulUploadAttempt_events (i : nat) (file : File) (attempt : Z)
  (url : jsstring) (lo hi : Z) :
  Forall (eventOfFile maxRetries timestamp i file lo hi)
    (successfulUploadAttempt maxRetries timestamp total i file attempt url).
Proof.
  unfold successfulUploadAttempt, uploadRetryNote.
  destruct (0 <? attempt); cbn;
    repeat (constructor; cbn; try tauto; try (repeat split; reflexivity)).
Qed.

Lemma failedUploadRun_events (i : nat) (file : File) (fls : list failure) :
  forall attempt : Z,
    Forall
      (eventOfFile maxRetries timestamp i file attempt
         (attempt + Z.of_nat (length fls)))
      (failedUploadRun maxRetries retryDelay timestamp total i file attempt fls).
Proof.
  induction fls as [|fl fls IH]; intros attempt; cbn [failedUploadRun].
  - constructor.
  - rewrite !Forall_app. repeat split.
    + eapply Forall_impl; [|apply failedUploadAttempt_events].
      intros ev. apply eventOfFile_weaken; cbn [length]; lia.
    + unfold backoffWait. repeat constructor.
    + eapply Forall_impl; [|apply (IH (attempt + 1))].
      intros ev. apply eventOfFile_weaken; cbn [length]; lia.
Qed.

Lemma fileSegment_events (i : nat) (file : File) (r : fileRun) :
  fewFailures maxRetries r ->
  Forall (eventOfFile maxRetries timestamp i file 0 maxRetries)
    (fileSegment maxRetries retryDelay timestamp total i file r).
Proof.
  intros Hfew. unfold fileSegment. rewrite Forall_app. split.
  - eapply Forall_impl; [|apply failedUploadRun_events].
    intros ev. apply eventOfFile_weaken; unfold fewFailures in Hfew; lia.
  - apply successfulUploadAttempt_events.
Qed.

Lemma exhaustedSegment_events (i : nat) (file : File) (fls : list failure)
  (fl : failure) :
  Z.of_nat (length fls) = maxRetries ->
  Forall (eventOfFile maxRetries timestamp i file 0 (maxRetries + 1))
    (exhaustedSegment maxRetries retryDelay timestamp total i file fls fl).
Proof.
  intros Hlen. unfold exhaustedSegment. rewrite Forall_app. split.
  - eapply Forall_impl; [|apply failedUploadRun_events].
    intros ev. apply eventOfFile_weaken; lia.
  - eapply Forall_impl; [|apply failedUploadAttempt_events].
    intros ev. apply eventOfFile_weaken; lia.
Qed.

(** An event of the stored files belongs to one of them. *)
Lemma batchSegments_events (files : list File) :
  forall (i : nat) (runs : list fileRun) (ev : event),
    Forall (fewFailures maxRetries) runs ->
    In ev (batchSegments maxRetries retryDelay timestamp total i files runs) ->
    exists j file,
      nth_error files j = Some file /\ (j < length runs)%nat
      /\ eventOfFile maxRetries timestamp (i + j) file 0 maxRetries ev.
Proof.
  induction files as [|file files IH]; intros i [|r runs] ev Hfew Hin;
    cbn [batchSegments] in Hin; try contradiction.
  inversion Hfew as [|? ? Hr Hrest]; subst.
  apply in_app_or in Hin. destruct Hin as [Hin|Hin].
  - exists O, file. cbn [nth_error length]. rewrite Nat.add_0_r.
    split; [reflexivity|]. split; [lia|].
    pose proof (fileSegment_events i file r Hr) as Hall.
    rewrite Forall_forall in Hall. auto.
  - destruct (IH (S i) runs ev Hrest Hin) as (j & f & Hnth & Hlt & Hev).
    exists (S j), f. cbn [nth_error length]. split; [assumption|]. split; [lia|].
    replace (i + S j)%nat with (S i + j)%nat by lia. assumption.
Qed.

End ShapeFacts.

(** ** Pathnames *)

Lemma lit_inj (s t : string) : lit s = lit t -> s = t.
Proof.
  revert t. induction s as [|c s IH]; intros [|d t] H; cbn in H;
    try discriminate; [reflexivity|].
  inversion H as [[Hc Ht]]. f_equal; [|auto].
  rewrite <- (ascii_N_embedding c), <- (ascii_N_embedding d), Hc. reflexivity.
Qed.

Lemma showNat_no_dash (n : nat) : ~ In DASH (showNat n).
Proof.
  unfold showNat. generalize (Nat.to_uint n). intros d.
  induction d; cbn; intros H; try tauto; destruct H as [H|H];
    try discriminate; tauto.
Qed.

Lemma showNat_inj (n m : nat) : showNat n = showNat m -> n = m.
Proof.
  unfold showNat. intros H. apply lit_inj in H.
  apply Unsigned.to_uint_inj.
  assert (Hd : Some (Nat.to_uint n) = Some (Nat.to_uint m))
    by (rewrite <- !NilEmpty.usu, H; reflexivity).
  congruence.
Qed.

Lemma split_at_first {A} (x : A) (l1 l2 r1 r2 : list A) :
  ~ In x l1 -> ~ In x l2 -> l1 ++ x :: r1 = l2 ++ x :: r2 -> l1 = l2.
Proof.
  revert l2. induction l1 as [|a l1 IH]; intros [|b l2] H1 H2 H; cbn in *.
  - reflexivity.
  - inversion H; subst. tauto.
  - inversion H; subst. tauto.
  - inversion H; subst. f_equal. apply IH; tauto.
Qed.

(** The index alone tells the pathnames of one batch apart. *)
Lemma blobPathnameOf_index (timestamp : Z) (i j : nat) (s t : jsstring) :
  blobPathnameOf timestamp i s = blobPathnameOf timestamp j t -> i = j.
Proof.
  unfold blobPathnameOf. intros H.
  do 3 apply app_inv_head in H.
  apply showNat_inj.
  apply (split_at_first DASH _ _ s t); auto using showNat_no_dash.
Qed.

Lemma isWhiteSpace_DASH : isWhiteSpace DASH = false.
Proof. reflexivity. Qed.

Lemma replaceWhiteSpaceRuns_clean (s : jsstring) :
  forall inRun, Forall (fun c => isWhiteSpace c = false) (replaceWhiteSpaceRuns inRun s).
Proof.
  induction s as [|c s IH]; intros inRun; cbn [replaceWhiteSpaceRuns]; [constructor|].
  destruct (isWhiteSpace c) eqn:Hc.
  - destruct inRun; cbn [app]; [apply IH|].
    constructor; [apply isWhiteSpace_DASH|apply IH].
  - constructor; [assumption|apply IH].
Qed.

Lemma replaceWhiteSpaceRuns_id (s : jsstring) :
  Forall (fun c => isWhiteSpace c = false) s ->
  forall inRun, replaceWhiteSpaceRuns inRun s = s.
Proof.
  induction 1 as [|c s Hc Hs IH]; intros inRun; cbn [replaceWhiteSpaceRuns];
    [reflexivity|].
  rewrite Hc, IH. reflexivity.
Qed.

Lemma jsstring_eqb_eq (a b : jsstring) : jsstring_eqb a b = true <-> a = b.
Proof.
  revert b. induction a as [|x a IH]; intros [|y b]; cbn; try (split; congruence).
  rewrite andb_true_iff, N.eqb_eq, IH. split; [intros [-> ->]|intros [= -> ->]]; auto.
Qed.

(** ** What a deletion does to the store *)

Lemma delCalls_failedDeleteRun (urls : list jsstring) (maxRetries retryDelay : Z)
  (errs : list exn) :
  forall attempt : Z,
    delCalls (failedDeleteRun urls maxRetries retryDelay attempt errs)
    = repeat (urls, false) (length errs).
Proof.
  induction errs as [|e errs IH]; intros attempt; cbn [failedDeleteRun length repeat];
    [reflexivity|].
  rewrite !delCalls_app, IH. unfold failedDeleteAttempt, deleteRetryNote.
  destruct (0 <? attempt); reflexivity.
Qed.

Lemma repeat_snoc {A} (x : A) (n : nat) : repeat x n ++ [x] = repeat x (S n).
Proof. induction n; cbn; [reflexivity|]. now rewrite IHn. Qed.

(** The store calls of a deletion and its result: a failure report comes
    after [maxRetries + 1] refused calls and lists nothing; a success
    report for a non-empty request comes right after the one accepted call
    and lists the whole request. *)
Lemma deletionRun_calls (urls : list jsstring) (maxRetries retryDelay : Z)
  (r : DeletionOutcome) (devs : list event) :
  deletionRun urls maxRetries retryDelay r devs ->
  (success r = false /\ urls <> [] /\ deletedUrls r = []
   /\ delCalls devs = repeat (urls, false) (Z.to_nat (maxRetries + 1)))
  \/
  (success r = true /\ deletedUrls r = urls
   /\ ((urls = [] /\ devs = [])
       \/ (urls <> []
           /\ exists k : nat,
               Z.of_nat k <= maxRetries
               /\ delCalls devs = repeat (urls, false) k ++ [(urls, true)]))).
Proof.
  intros [Hnil | Hne Hneg | errs Hne Hle | errs e Hne Heq]; cbn [success deletedUrls].
  - right. subst urls. repeat split. left. split; reflexivity.
  - left. repeat split; try assumption.
    replace (Z.to_nat (maxRetries + 1)) with O by lia. reflexivity.
  - right. repeat split. right. split; [assumption|].
    exists (length errs). split; [assumption|].
    change (EvConsole (LogAttemptingDelete (length urls))
              :: failedDeleteRun urls maxRetries retryDelay 0 errs
              ++ successfulDeleteAttempt urls maxRetries (Z.of_nat (length errs)))
      with ([EvConsole (LogAttemptingDelete (length urls))]
              ++ failedDeleteRun urls maxRetries retryDelay 0 errs
              ++ successfulDeleteAttempt urls maxRetries (Z.of_nat (length errs))).
    rewrite !delCalls_app, delCalls_failedDeleteRun.
    unfold successfulDeleteAttempt, deleteRetryNote.
    destruct (0 <? Z.of_nat (length errs)); reflexivity.
  - left. repeat split; try assumption.
    change (EvConsole (LogAttemptingDelete (length urls))
              :: failedDeleteRun urls maxRetries retryDelay 0 errs
              ++ failedDeleteAttempt urls maxRetries maxRetries e
              ++ [EvConsole ErrDeleteMaxRetries])
      with ([EvConsole (LogAttemptingDelete (length urls))]
              ++ failedDeleteRun urls maxRetries retryDelay 0 errs
              ++ failedDeleteAttempt urls maxRetries maxRetries e
              ++ [EvConsole ErrDeleteMaxRetries]).
    rewrite !delCalls_app, delCalls_failedDeleteRun.
    replace (Z.to_nat (maxRetries + 1)) with (S (length errs)) by lia.
    rewrite <- repeat_snoc.
    unfold failedDeleteAttempt, deleteRetryNote.
    destruct (0 <? maxRetries); cbn; rewrite ?app_nil_r; reflexivity.
Qed.

Lemma failedDeleteRun_events (urls : list jsstring) (maxRetries retryDelay : Z)
  (errs : list exn) :
  forall attempt : Z,
    Forall (deletionEvent urls)
      (failedDeleteRun urls maxRetries retryDelay attempt errs).
Proof.
  induction errs as [|e errs IH]; intros attempt; cbn [failedDeleteRun];
    [constructor|].
  rewrite !Forall_app. repeat split; [| |apply IH].
  - unfold failedDeleteAttempt, deleteRetryNote.
    destruct (0 <? attempt); repeat constructor.
  - repeat constructor.
Qed.

(** A deletion adds nothing but its own events. *)
Lemma deletionRun_events (urls : list jsstring) (maxRetries retryDelay : Z)
  (r : DeletionOutcome) (devs : list event) :
  deletionRun urls maxRetries retryDelay r devs ->
  Forall (deletionEvent urls) devs.
Proof.
  intros [Hnil | Hne Hneg | errs Hne Hle | errs e Hne Heq].
  - constructor.
  - repeat constructor.
  - constructor; [exact I|]. rewrite Forall_app. split.
    + apply failedDeleteRun_events.
    + unfold successfulDeleteAttempt, deleteRetryNote.
      destruct (0 <? _); repeat constructor.
  - constructor; [exact I|]. rewrite !Forall_app. repeat split.
    + apply failedDeleteRun_events.
    + unfold failedDeleteAttempt, deleteRetryNote.
      destruct (0 <? _); repeat constructor.
    + repeat constructor.
Qed.

(** C6.  [deleteAntragFiles] never throws and never runs out of fuel: for
    every request, retry budget, delay and store behaviour it returns a
    [DeletionOutcome], and the [success] flag of that outcome is [true]
    exactly when every requested URL was part of a store call that the
    store accepted. *)
Theorem deleteAntragFiles_reports_outcome (env : Env)
  (urls : option (list jsstring)) (maxRetries retryDelay : Z) (tr : World) :
  exists (r : DeletionOutcome) (new : list event),
    deleteAntragFiles env urls maxRetries retryDelay tr = (Ok r, tr ++ new)
    /\ (success r = true
        <-> forall u : jsstring,
              In u (present urls) ->
              exists us, In (us, true) (delCalls new) /\ In u us).
Proof.
  destruct (deleteAntragFiles_run env urls maxRetries retryDelay tr)
    as (r & new & Hrun & Hshape).
  exists r, new. split; [assumption|].
  destruct (deletionRun_calls _ _ _ _ _ Hshape)
    as [(Hs & Hne & _ & Hcalls)
       |(Hs & _ & [[Hnil _]|(Hne & k & _ & Hcalls)])]; rewrite Hs.
  - split; [discriminate|]. intros Hall. exfalso.
    destruct (present urls) as [|u us]; [congruence|].
    destruct (Hall u (or_introl eq_refl)) as (us' & Hin & _).
    rewrite Hcalls in Hin. apply repeat_spec in Hin. discriminate.
  - split; [|reflexivity]. intros _ u Hu. rewrite Hnil in Hu. contradiction.
  - split; [|reflexivity]. intros _ u Hu. exists (present urls).
    split; [|assumption]. rewrite Hcalls. apply in_or_app. right. left. reflexivity.
Qed.

(** C7.  Every store call of [deleteAntragFiles] takes the whole requested
    list, never a part of it.  If the store accepts a call, the result is
    [success = true] with the whole list as [deletedUrls].  If a non-empty
    request is never accepted, the retries were used up: there were exactly
    [maxRetries + 1] calls (none when that is negative), and the result is
    [success = false] with an empty [deletedUrls]. *)
Theorem deleteAntragFiles_all_or_nothing (env : Env)
  (urls : option (list jsstring)) (maxRetries retryDelay : Z) (tr : World) :
  exists (r : DeletionOutcome) (new : list event),
    deleteAntragFiles env urls maxRetries retryDelay tr = (Ok r, tr ++ new)
    /\ (forall us ok, In (us, ok) (delCalls new) -> us = present urls)
    /\ ((exists us, In (us, true) (delCalls new)) ->
        success r = true /\ deletedUrls r = present urls
        /\ exists k : nat,
            Z.of_nat k <= maxRetries
            /\ delCalls new
               = repeat (present urls, false) k ++ [(present urls, true)])
    /\ (present urls <> [] ->
        (forall us, ~ In (us, true) (delCalls new)) ->
        success r = false /\ deletedUrls r = []
        /\ delCalls new
           = repeat (present urls, false) (Z.to_nat (maxRetries + 1)))
    /\ (success r = true -> deletedUrls r = present urls)
    /\ (success r = false -> deletedUrls r = []).
Proof.
  destruct (deleteAntragFiles_run env urls maxRetries retryDelay tr)
    as (r & new & Hrun & Hshape).
  exists r, new. split; [assumption|].
  pose proof (deletionRun_events _ _ _ _ _ Hshape) as Hevents.
  split.
  { intros us ok Hin. apply delCalls_In in Hin. destruct Hin as (rej & Hin & _).
    rewrite Forall_forall in Hevents. exact (Hevents _ Hin). }
  destruct (deletionRun_calls _ _ _ _ _ Hshape)
    as [(Hs & Hne & Hdel & Hcalls)
       |(Hs & Hdel & [[Hnil Hnew]|(Hne & k & Hk & Hcalls)])].
  - split; [|split; [|split]].
    + intros (us & Hin). rewrite Hcalls in Hin. apply repeat_spec in Hin.
      discriminate.
    + intros _ _. repeat split; assumption.
    + congruence.
    + intros _. assumption.
  - subst new. split; [|split; [|split]].
    + intros (us & []).
    + intros Hne. congruence.
    + intros _. assumption.
    + congruence.
  - assert (Hin : In (present urls, true) (delCalls new))
      by (rewrite Hcalls; apply in_or_app; right; left; reflexivity).
    split; [|split; [|split]].
    + intros _. split; [assumption|]. split; [assumption|].
      exists k. split; assumption.
    + intros _ Hnone. exfalso. exact (Hnone _ Hin).
    + intros _. assumption.
    + congruence.
Qed.

(** ** What an upload leaves in the store *)

Lemma noFiles_present {A} (files : option (list A)) :
  noFiles files = true -> present files = [].
Proof.
  destruct files as [[|x l]|]; try reflexivity.
  rewrite noFiles_cons. discriminate.
Qed.

Section UploadViews.

Variable maxRetries retryDelay : Z.
Variable timestamp : Z.
Variable total : nat.

Lemma storedBlobs_failedUploadAttempt (i : nat) (file : File) (attempt : Z)
  (fl : failure) :
  storedBlobs (failedUploadAttempt maxRetries timestamp total i file attempt fl)
  = [].
Proof.
  unfold failedUploadAttempt, uploadRetryNote.
  destruct (0 <? attempt), fl; reflexivity.
Qed.

Lemma storedBlobs_failedUploadRun (i : nat) (file : File) (fls : list failure) :
  forall attempt : Z,
    storedBlobs
      (failedUploadRun maxRetries retryDelay timestamp total i file attempt fls)
    = [].
Proof.
  induction fls as [|fl fls IH]; intros attempt; cbn [failedUploadRun];
    [reflexivity|].
  rewrite !storedBlobs_app, storedBlobs_failedUploadAttempt, IH. reflexivity.
Qed.

Lemma storedBlobs_successfulUploadAttempt (i : nat) (file : File) (attempt : Z)
  (url : jsstring) :
  storedBlobs
    (successfulUploadAttempt maxRetries timestamp total i file attempt url)
  = [(pathOf timestamp i file, url)].
Proof.
  unfold successfulUploadAttempt, uploadRetryNote.
  destruct (0 <? attempt); reflexivity.
Qed.

(** The stored files leave one blob each, in the order of the batch. *)
Lemma storedBlobs_batchSegments (files : list File) :
  forall (i : nat) (runs : list fileRun),
    length runs = length files ->
    storedBlobs
      (batchSegments maxRetries retryDelay timestamp total i files runs)
    = combine (pathsFrom timestamp i files) (map storedUrl runs).
Proof.
  induction files as [|file files IH]; intros i [|r runs] Hlen;
    cbn [length] in Hlen; try discriminate; [reflexivity|].
  cbn [batchSegments pathsFrom map combine]. unfold fileSegment.
  rewrite !storedBlobs_app, storedBlobs_failedUploadRun,
    storedBlobs_successfulUploadAttempt, IH by lia.
  reflexivity.
Qed.

Lemma storedBlobs_exhaustedSegment (i : nat) (file : File)
  (fls : list failure) (fl : failure) :
  storedBlobs
    (exhaustedSegment maxRetries retryDelay timestamp total i file fls fl)
  = [].
Proof.
  unfold exhaustedSegment.
  rewrite storedBlobs_app, storedBlobs_failedUploadRun,
    storedBlobs_failedUploadAttempt.
  reflexivity.
Qed.

End UploadViews.

Lemma pathsFrom_length (timestamp : Z) (files : list File) :
  forall i : nat, length (pathsFrom timestamp i files) = length files.
Proof. induction files; intros i; cbn; [reflexivity|]. now rewrite IHfiles. Qed.

(** C1, amended.  With a retry budget that is not negative, a call of
    [uploadAntragFiles] on a batch that passes validation either throws, or
    returns exactly one URL per file: the list has the length of the batch,
    and its URLs are, in order, what the store returned for the pathnames
    of the files in batch order.  The call never runs out of fuel. *)
Theorem uploadAntragFiles_one_url_per_file (env : Env)
  (maxRetries retryDelay : Z) (cfg : Config) (files : option (list File))
  (tr tr' : World) (r : outcome (list jsstring)) :
  0 <= maxRetries ->
  validateAntragFiles cfg files = Ok tt ->
  uploadAntragFiles env maxRetries retryDelay cfg files tr = (r, tr') ->
  exists new : list event,
    tr' = tr ++ new
    /\ ((exists urls : list jsstring,
            r = Ok urls
            /\ length urls = length (present files)
            /\ storedBlobs new
               = combine (pathsFrom (getTime env tr) 0 (present files)) urls)
        \/ (exists e : exn, r = Throw e)).
Proof.
  intros Hpos Hval Hrun.
  destruct (upload_run env maxRetries retryDelay cfg files tr)
    as (r0 & new & Hrun0 & Hshape).
  rewrite Hrun0 in Hrun. inversion Hrun; subst r0 tr'; clear Hrun.
  exists new. split; [reflexivity|].
  destruct Hshape as [e He | _ Hnone | _ _ Hneg | runs _ _ _ Hlen Hfew
                     | pre file post runs fls fl cleanup _ _ _ _ _ _ _].
  - congruence.
  - left. exists []. rewrite (noFiles_present _ Hnone). repeat split.
  - lia.
  - left. exists (map storedUrl runs). split; [reflexivity|].
    split; [rewrite length_map; assumption|].
    apply storedBlobs_batchSegments. assumption.
  - right. eexists. reflexivity.
Qed.

(** C3.  When [validateAntragFiles] throws on the input,
    [uploadAntragFiles] throws that same value, which is a
    [ValidationError], and leaves the trace as it was: no [put], no [del],
    nothing at all happened. *)
Theorem uploadAntragFiles_validation_first (env : Env)
  (maxRetries retryDelay : Z) (cfg : Config) (files : option (list File))
  (tr : World) (e : exn) :
  validateAntragFiles cfg files = Throw e ->
  uploadAntragFiles env maxRetries retryDelay cfg files tr = (Throw e, tr)
  /\ exists fields, e = ValidationError fields.
Proof.
  intros Hval. split.
  - unfold uploadAntragFiles, bind, pure. rewrite Hval. reflexivity.
  - destruct (validateAntragFiles_cases cfg files) as [H|[fields H]];
      [congruence|].
    exists fields. congruence.
Qed.

(** C10.  With a negative retry budget, a non-empty batch that passes
    validation is not uploaded at all: the call returns the empty list and
    the trace is unchanged (no [put] call, no other event), so the length
    of the result differs from the length of the batch. *)
Theorem uploadAntragFiles_negative_budget (env : Env)
  (maxRetries retryDelay : Z) (cfg : Config) (files : list File) (tr : World) :
  files <> [] ->
  validateAntragFiles cfg (Some files) = Ok tt ->
  maxRetries < 0 ->
  uploadAntragFiles env maxRetries retryDelay cfg (Some files) tr = (Ok [], tr)
  /\ length (@nil jsstring) <> length files.
Proof.
  intros Hne Hval Hneg. split.
  - destruct (upload_run env maxRetries retryDelay cfg (Some files) tr)
      as (r & new & Hrun & Hshape).
    rewrite Hrun.
    destruct Hshape as [e He | _ Hnone | _ _ _ | runs _ _ Hpos _ _
                       | pre file post runs fls fl cleanup _ Hpos _ _ _ _ _];
      try congruence; try lia; rewrite app_nil_r; reflexivity.
  - destruct files; [congruence|]. cbn. lia.
Qed.

(** ** The store calls of an upload *)

(** The compensating deletion adds its announcement and the events of the
    deletion, nothing else. *)
Lemma cleanUpRun_events (env : Env) (announcement : consoleLine)
  (uploaded : list jsstring) (tr : World) (cleanup : list event) :
  cleanUpRun env announcement uploaded tr cleanup ->
  Forall (fun ev => ev = EvConsole announcement \/ deletionEvent uploaded ev)
    cleanup.
Proof.
  intros [Hnil | r devs Hne Hrun Hshape]; [constructor|].
  constructor; [left; reflexivity|].
  eapply Forall_impl; [|exact (deletionRun_events _ _ _ _ _ Hshape)].
  intros ev H. right. exact H.
Qed.

Lemma cleanUpRun_no_put (env : Env) (announcement : consoleLine)
  (uploaded : list jsstring) (tr : World) (cleanup : list event)
  (p : jsstring) (b : Blob) (o : PutOptions) (res : exn + jsstring) :
  cleanUpRun env announcement uploaded tr cleanup ->
  ~ In (EvPut p b o res) cleanup.
Proof.
  intros Hclean Hin. apply cleanUpRun_events in Hclean.
  rewrite Forall_forall in Hclean. destruct (Hclean _ Hin) as [H|H];
    [discriminate|exact H].
Qed.

(** Every [put] of an upload is for a file of the batch, under the pathname
    of that file's index, with the file's bytes and the fixed options.  In a
    run that ends at the file after [pre], no later file is touched. *)
Lemma uploadRun_puts (env : Env) (maxRetries retryDelay : Z) (cfg : Config)
  (files : option (list File)) (tr : World) (r : outcome (list jsstring))
  (new : list event) (p : jsstring) (b : Blob) (o : PutOptions)
  (res : exn + jsstring) :
  uploadRun env maxRetries retryDelay cfg files tr r new ->
  In (EvPut p b o res) new ->
  exists (i : nat) (file : File),
    nth_error (present files) i = Some file
    /\ p = pathOf (getTime env tr) i file
    /\ b = mkBlob (data file) (type file)
    /\ o = putOptionsFor file.
Proof.
  intros [e He | _ Hnone | _ _ Hneg | runs _ _ _ Hlen Hfew
         | pre file post runs fls fl cleanup _ _ Hsplit Hlen Hfew Hfls Hclean] Hin;
    try contradiction.
  - destruct (batchSegments_events _ _ _ _ _ _ _ _ Hfew Hin)
      as (j & f & Hnth & _ & Hev).
    exists j, f. cbn in Hev. tauto.
  - apply in_app_or in Hin. destruct Hin as [Hin|Hin].
    { destruct (batchSegments_events _ _ _ _ _ _ _ _ Hfew Hin)
        as (j & f & Hnth & _ & Hev).
      exists j, f. cbn in Hev. rewrite Hsplit, nth_error_app1; [tauto|].
      apply nth_error_Some. congruence. }
    apply in_app_or in Hin. destruct Hin as [Hin|Hin].
    { pose proof (exhaustedSegment_events maxRetries retryDelay
                    (getTime env tr) (length (present files)) (length pre)
                    file fls fl Hfls) as Hall.
      rewrite Forall_forall in Hall. specialize (Hall _ Hin). cbn in Hall.
      exists (length pre), file.
      rewrite Hsplit, nth_error_app2, Nat.sub_diag by lia. cbn. tauto. }
    exfalso. exact (cleanUpRun_no_put _ _ _ _ _ _ _ _ _ Hclean Hin).
Qed.

(** ** Errors out of an upload *)

Lemma uploadCatch_rethrows (env : Env) (error : exn) (st : UploadState) :
  instanceofValidationError error || instanceofAppError error = true ->
  uploadCatch env error st = (Throw error, st).
Proof. intros H. unfold uploadCatch. rewrite H. reflexivity. Qed.

Lemma uploadCatch_normalizes (env : Env) (error : exn) (st : UploadState) :
  instanceofValidationError error || instanceofAppError error = false ->
  exists cleanup : list event,
    cleanUpRun env LogCleaningUpAfterUnexpected (uploadedUrls st) (trace st)
      cleanup
    /\ uploadCatch env error st
       = (Throw (AppError FILE_UPLOAD genericUploadMessage),
          mkUploadState
            (trace st ++ cleanup ++ [EvConsole (ErrUnexpectedUpload error)])
            (uploadedUrls st)).
Proof.
  intros H. unfold uploadCatch. rewrite H. unfold bind.
  rewrite cleanUp_run.
  destruct (cleanUpTrace_run env LogCleaningUpAfterUnexpected (uploadedUrls st)
              (trace st)) as (cleanup & Htrace & Hclean).
  exists cleanup. split; [assumption|].
  rewrite Htrace. unfold liftW, console, emit, throw. cbn [trace uploadedUrls].
  rewrite <- app_assoc. reflexivity.
Qed.

(** ** The retry schedule *)

Lemma jsstring_eqb_refl (a : jsstring) : jsstring_eqb a a = true.
Proof. apply jsstring_eqb_eq. reflexivity. Qed.

Lemma jsstring_eqb_neq (a b : jsstring) : a <> b -> jsstring_eqb a b = false.
Proof.
  intros H. destruct (jsstring_eqb a b) eqn:E; [|reflexivity].
  apply jsstring_eqb_eq in E. contradiction.
Qed.

Lemma putAttemptsOn_app (p : jsstring) (a b : list obs) :
  putAttemptsOn p (a ++ b) = (putAttemptsOn p a + putAttemptsOn p b)%nat.
Proof. unfold putAttemptsOn. rewrite filter_app, length_app. reflexivity. Qed.

Lemma putAttemptsOn_none (p : jsstring) (os : list obs) :
  Forall (fun o => obsPutOn p o = false) os -> putAttemptsOn p os = O.
Proof.
  unfold putAttemptsOn. induction 1 as [|o os Ho _ IH]; cbn; [reflexivity|].
  rewrite Ho. exact IH.
Qed.

Lemma putAttemptsOn_backoffSchedule (p : jsstring) (retryDelay : Z)
  (retries : nat) :
  forall attempt : Z,
    putAttemptsOn p (backoffSchedule p retryDelay attempt retries) = S retries.
Proof.
  unfold putAttemptsOn.
  induction retries as [|n IH]; intros attempt; cbn; rewrite jsstring_eqb_refl;
    cbn; [reflexivity|].
  f_equal. apply IH.
Qed.

(** Between the [k+1]-th failed call of a schedule and the next lies the
    wait [retryDelay * 2 ^ (attempt + k)]. *)
Lemma backoffSchedule_waits (p : jsstring) (retryDelay : Z) (retries : nat) :
  forall (attempt : Z) (k : nat),
    (k < retries)%nat ->
    nth_error (backoffSchedule p retryDelay attempt retries) (2 * k)
    = Some (ObsPutFailed p)
    /\ nth_error (backoffSchedule p retryDelay attempt retries) (2 * k + 1)
       = Some (ObsSleep (retryDelay * 2 ^ (attempt + Z.of_nat k)))
    /\ nth_error (backoffSchedule p retryDelay attempt retries) (2 * k + 2)
       = Some (ObsPutFailed p).
Proof.
  induction retries as [|n IH]; intros attempt k Hk; [lia|].
  destruct k as [|k].
  - cbn. rewrite Z.add_0_r. destruct n; repeat split; reflexivity.
  - destruct (IH (attempt + 1) k ltac:(lia)) as (H0 & H1 & H2).
    replace (2 * S k)%nat with (S (S (2 * k))) by lia.
    replace (attempt + Z.of_nat (S k)) with (attempt + 1 + Z.of_nat k) by lia.
    cbn [backoffSchedule nth_error Nat.add]. auto.
Qed.

Lemma observe_In (o : obs) (evs : list event) :
  In o (observe evs) -> exists ev, In ev evs /\ In o (observeEvent ev).
Proof. unfold observe. rewrite in_flat_map. auto. Qed.

Section ScheduleFacts.

Variable maxRetries retryDelay : Z.
Variable timestamp : Z.
Variable total : nat.

Lemma failedUploadRun_read_failure (i : nat) (file : File) (e : exn)
  (fls : list failure) :
  forall attempt : Z,
    In (ReadFailed e) fls ->
    In (EvArrayBuffer file (Some e))
      (failedUploadRun maxRetries retryDelay timestamp total i file attempt fls).
Proof.
  induction fls as [|fl fls IH]; intros attempt Hin; [contradiction|].
  cbn [failedUploadRun]. destruct Hin as [->|Hin].
  - apply in_or_app. left. unfold failedUploadAttempt.
    apply in_or_app. right. left. reflexivity.
  - apply in_or_app. right. apply in_or_app. right. apply IH. assumption.
Qed.

(** A file whose attempts all fail at the store shows the schedule: a
    failed [put], the wait, a failed [put], the doubled wait, and so on. *)
Lemma observe_store_failures (i : nat) (file : File) (fls : list failure)
  (fl : failure) :
  Forall storeFailure fls -> storeFailure fl ->
  forall attempt : Z,
    observe
      (failedUploadRun maxRetries retryDelay timestamp total i file attempt fls
         ++ failedUploadAttempt maxRetries timestamp total i file
              (attempt + Z.of_nat (length fls)) fl)
    = backoffSchedule (pathOf timestamp i file) retryDelay attempt (length fls).
Proof.
  intros Hfls Hfl. induction Hfls as [|fl' fls Hfl' _ IH]; intros attempt.
  - cbn [failedUploadRun length app Z.of_nat backoffSchedule].
    rewrite Z.add_0_r. unfold failedUploadAttempt, uploadRetryNote.
    destruct fl; [contradiction|]. destruct (0 <? attempt); reflexivity.
  - cbn [failedUploadRun length backoffSchedule].
    rewrite <- !app_assoc, !observe_app.
    replace (attempt + Z.of_nat (S (length fls)))
      with (attempt + 1 + Z.of_nat (length fls)) by lia.
    rewrite <- observe_app, IH.
    unfold failedUploadAttempt, uploadRetryNote.
    destruct fl'; [contradiction|]. destruct (0 <? attempt); reflexivity.
Qed.

(** A stored file has an accepted [put] under its pathname. *)
Lemma batchSegments_stored_put (files : list File) :
  forall (i j : nat) (runs : list fileRun) (file : File),
    length runs = length files ->
    nth_error files j = Some file ->
    exists url,
      In (EvPut (pathOf timestamp (i + j) file)
            (mkBlob (data file) (type file)) (putOptionsFor file) (inr url))
        (batchSegments maxRetries retryDelay timestamp total i files runs).
Proof.
  induction files as [|f files IH]; intros i j [|r runs] file Hlen Hnth;
    cbn [length] in Hlen; try discriminate;
    try (destruct j; discriminate).
  cbn [batchSegments]. destruct j as [|j]; cbn [nth_error] in Hnth.
  - inversion Hnth; subst f. exists (storedUrl r). rewrite Nat.add_0_r.
    apply in_or_app. left. unfold fileSegment. apply in_or_app. right.
    unfold successfulUploadAttempt. apply in_or_app. right.
    right. left. reflexivity.
  - destruct (IH (S i) j runs file ltac:(lia) Hnth) as (url & Hin).
    exists url. apply in_or_app. right.
    replace (i + S j)%nat with (S i + j)%nat by lia. assumption.
Qed.

(** The observations of the stored files [pre] are no [put] under the
    pathname of a later index. *)
Lemma batchSegments_other_paths (pre : list File) (runs : list fileRun)
  (i : nat) (file : File) :
  Forall (fewFailures maxRetries) runs ->
  length runs = length pre ->
  (length pre <= i)%nat ->
  Forall (fun o => obsPutOn (pathOf timestamp i file) o = false)
    (observe (batchSegments maxRetries retryDelay timestamp total 0 pre runs)).
Proof.
  intros Hfew Hlen Hi. rewrite Forall_forall. intros o Ho.
  apply observe_In in Ho. destruct Ho as (ev & Hev & Ho).
  destruct (batchSegments_events _ _ _ _ _ _ _ _ Hfew Hev)
    as (j & f & Hnth & Hj & Hshape).
  assert (Hne : pathOf timestamp j f <> pathOf timestamp i file).
  { intros Heq. apply blobPathnameOf_index in Heq. lia. }
  destruct ev as [|p b o' [e|url]| | |]; cbn in Ho; try contradiction;
    destruct Ho as [<-|[]]; cbn; try reflexivity;
    cbn in Hshape; destruct Hshape as (-> & _);
    apply jsstring_eqb_neq; assumption.
Qed.

End ScheduleFacts.

Lemma cleanUpRun_no_put_obs (env : Env) (announcement : consoleLine)
  (uploaded : list jsstring) (tr : World) (cleanup : list event) (p : jsstring) :
  cleanUpRun env announcement uploaded tr cleanup ->
  Forall (fun o => obsPutOn p o = false) (observe cleanup).
Proof.
  intros Hclean. rewrite Forall_forall. intros o Ho.
  apply observe_In in Ho. destruct Ho as (ev & Hev & Ho).
  apply cleanUpRun_events in Hclean. rewrite Forall_forall in Hclean.
  specialize (Hclean _ Hev).
  destruct ev as [|q b o' [e|url]|us [e|]| |]; cbn in Ho; try contradiction;
    destruct Ho as [<-|[]]; try reflexivity;
    destruct Hclean as [H|H]; try discriminate; contradiction.
Qed.

(** In a run that ends at the file after [pre], every [put] is for an index
    up to that file's. *)
Lemma exhausted_puts_bounded (env : Env) (maxRetries retryDelay timestamp : Z)
  (total : nat) (announcement : consoleLine) (uploaded : list jsstring)
  (tr : World) (pre : list File) (file : File) (runs : list fileRun)
  (fls : list failure) (fl : failure) (cleanup : list event)
  (p : jsstring) (b : Blob) (o : PutOptions) (res : exn + jsstring) :
  Forall (fewFailures maxRetries) runs ->
  Z.of_nat (length fls) = maxRetries ->
  cleanUpRun env announcement uploaded tr cleanup ->
  In (EvPut p b o res)
    (batchSegments maxRetries retryDelay timestamp total 0 pre runs
       ++ exhaustedSegment maxRetries retryDelay timestamp total (length pre)
            file fls fl
       ++ cleanup) ->
  exists (j : nat) (f : File),
    (j <= length pre)%nat /\ p = pathOf timestamp j f.
Proof.
  intros Hfew Hfls Hclean Hin.
  apply in_app_or in Hin. destruct Hin as [Hin|Hin].
  { destruct (batchSegments_events _ _ _ _ _ _ _ _ Hfew Hin)
      as (j & f & Hnth & _ & Hev).
    exists j, f. cbn in Hev. split; [|tauto].
    apply Nat.lt_le_incl, nth_error_Some. congruence. }
  apply in_app_or in Hin. destruct Hin as [Hin|Hin].
  { pose proof (exhaustedSegment_events maxRetries retryDelay timestamp total
                  (length pre) file fls fl Hfls) as Hall.
    rewrite Forall_forall in Hall. specialize (Hall _ Hin). cbn in Hall.
    exists (length pre), file. split; [lia|tauto]. }
  exfalso. exact (cleanUpRun_no_put _ _ _ _ _ _ _ _ _ Hclean Hin).
Qed.

(** C5.  Take a file of the batch for which the store was called, such that
    no [put] under the file's pathname was accepted and no read of the file
    was refused, so that every attempt for it reached the store and failed
    there.  Then the retry budget is not negative, and the store calls and
    waits of the call contain, in one piece, [maxRetries + 1] failed [put]s
    under that pathname with a wait of [retryDelay * 2 ^ (k - 1)] between
    the [k]-th and the next (the wait sits at position [2 * k + 1] of the
    piece when [k] counts from 0, and is then [retryDelay * 2 ^ k]); there
    is no other [put] under that pathname.
    For [maxRetries = 3] and [retryDelay = 1000] the piece is four failed
    [put]s separated by waits of 1000, 2000 and 4000 ms. *)
Theorem uploadAntragFiles_backoff (env : Env) (maxRetries retryDelay : Z)
  (cfg : Config) (files : option (list File)) (tr : World)
  (r : outcome (list jsstring)) (new : list event) (i : nat) (file : File) :
  uploadAntragFiles env maxRetries retryDelay cfg files tr = (r, tr ++ new) ->
  nth_error (present files) i = Some file ->
  In (pathOf (getTime env tr) i file) (putPaths new) ->
  (forall b o url,
      ~ In (EvPut (pathOf (getTime env tr) i file) b o (inr url)) new) ->
  (forall e, ~ In (EvArrayBuffer file (Some e)) new) ->
  0 <= maxRetries
  /\ (exists before after : list obs,
         observe new
         = before
             ++ backoffSchedule (pathOf (getTime env tr) i file) retryDelay 0
                  (Z.to_nat maxRetries)
             ++ after
         /\ Forall (fun o => obsPutOn (pathOf (getTime env tr) i file) o = false)
              (before ++ after))
  /\ Z.of_nat (putAttemptsOn (pathOf (getTime env tr) i file) (observe new))
     = maxRetries + 1
  /\ (forall k : nat,
         (k < Z.to_nat maxRetries)%nat ->
         nth_error
           (backoffSchedule (pathOf (getTime env tr) i file) retryDelay 0
              (Z.to_nat maxRetries)) (2 * k + 1)
         = Some (ObsSleep (retryDelay * 2 ^ Z.of_nat k)))
  /\ (forall p : jsstring,
         backoffSchedule p 1000 0 (Z.to_nat 3)
         = [ObsPutFailed p; ObsSleep 1000; ObsPutFailed p; ObsSleep 2000;
            ObsPutFailed p; ObsSleep 4000; ObsPutFailed p]).
Proof.
  intros Hrun Hnth Hcalled Hrefused Hread.
  set (P := pathOf (getTime env tr) i file) in *.
  destruct (upload_run env maxRetries retryDelay cfg files tr)
    as (r0 & new0 & Hrun0 & Hshape).
  rewrite Hrun0 in Hrun. inversion Hrun as [[Hr Hnew]].
  apply app_inv_head in Hnew. subst r0 new0. clear Hrun.
  destruct Hshape as [e He | _ Hnone | _ _ Hneg | runs _ _ Hpos Hlen Hfew
                     | pre file' post runs fls fl cleanup _ Hpos Hsplit Hlen
                         Hfew Hfls Hclean];
    try contradiction.
  { exfalso.
    destruct (batchSegments_stored_put maxRetries retryDelay (getTime env tr)
                (length (present files)) (present files) 0 i runs file Hlen Hnth)
      as (url & Hin).
    exact (Hrefused _ _ _ Hin). }
  assert (Hi : i = length pre).
  { destruct (Nat.lt_trichotomy i (length pre)) as [Hlt|[Heq|Hgt]];
      [exfalso|assumption|exfalso].
    - rewrite Hsplit, nth_error_app1 in Hnth by assumption.
      destruct (batchSegments_stored_put maxRetries retryDelay (getTime env tr)
                  (length (present files)) pre 0 i runs file Hlen Hnth)
        as (url & Hin).
      eapply Hrefused. apply in_or_app. left. exact Hin.
    - apply putPaths_In in Hcalled. destruct Hcalled as (b & o & res & Hin).
      destruct (exhausted_puts_bounded _ _ _ _ _ _ _ _ _ _ _ _ _ _ _ _ _ _
                  Hfew Hfls Hclean Hin) as (j & f & Hj & Hp).
      unfold P in Hp. apply blobPathnameOf_index in Hp. lia. }
  subst i. rewrite Hsplit, nth_error_app2, Nat.sub_diag in Hnth by lia.
  cbn in Hnth. inversion Hnth; subst file'. clear Hnth.
  assert (Hstore : Forall storeFailure fls /\ storeFailure fl).
  { split.
    - rewrite Forall_forall. intros [e|e] Hin; [|exact I].
      exfalso. apply (Hread e). apply in_or_app. right. apply in_or_app. left.
      unfold exhaustedSegment. apply in_or_app. left.
      apply failedUploadRun_read_failure. assumption.
    - destruct fl as [e|e]; [|exact I].
      exfalso. apply (Hread e). apply in_or_app. right. apply in_or_app. left.
      unfold exhaustedSegment, failedUploadAttempt. apply in_or_app. right.
      apply in_or_app. right. left. reflexivity. }
  destruct Hstore as [Hstore Hlast].
  assert (Hobs : observe
                   (exhaustedSegment maxRetries retryDelay (getTime env tr)
                      (length (present files)) (length pre) file fls fl)
                 = backoffSchedule P retryDelay 0 (Z.to_nat maxRetries)).
  { unfold exhaustedSegment.
    replace maxRetries with (0 + Z.of_nat (length fls)) at 3 by lia.
    rewrite (observe_store_failures maxRetries retryDelay (getTime env tr)
               (length (present files)) (length pre) file fls fl Hstore Hlast 0).
    f_equal. lia. }
  assert (Hrest : Forall (fun o => obsPutOn P o = false)
                    (observe
                       (batchSegments maxRetries retryDelay (getTime env tr)
                          (length (present files)) 0 pre runs)
                     ++ observe cleanup)).
  { apply Forall_app. split.
    - apply batchSegments_other_paths; [assumption|assumption|lia].
    - exact (cleanUpRun_no_put_obs _ _ _ _ _ P Hclean). }
  split; [assumption|]. split; [|split; [|split]].
  - eexists. eexists. split; [|exact Hrest].
    rewrite !observe_app, Hobs. reflexivity.
  - rewrite !observe_app, Hobs, !putAttemptsOn_app,
      putAttemptsOn_backoffSchedule.
    apply Forall_app in Hrest. destruct Hrest as [Hbefore Hafter].
    rewrite (putAttemptsOn_none _ _ Hbefore), (putAttemptsOn_none _ _ Hafter).
    lia.
  - intros k Hk.
    destruct (backoffSchedule_waits P retryDelay (Z.to_nat maxRetries) 0 k Hk)
      as (_ & Hwait & _).
    exact Hwait.
  - intros p. reflexivity.
Qed.

(** ** Rolling back *)

Lemma delCalls_none (evs : list event) :
  (forall us rej, ~ In (EvDel us rej) evs) -> delCalls evs = [].
Proof.
  induction evs as [|ev evs IH]; intros H; [reflexivity|].
  change (ev :: evs) with ([ev] ++ evs). rewrite delCalls_app.
  rewrite IH by (intros us rej Hin; apply (H us rej); right; assumption).
  destruct ev as [| |us rej| |]; try reflexivity.
  exfalso. apply (H us rej). left. reflexivity.
Qed.

(** Before the compensating deletion, the events of a run that ends at the
    file after [pre] all belong to the files up to that one. *)
Lemma upload_events_before_cleanup (maxRetries retryDelay timestamp : Z)
  (total : nat) (pre : list File) (file : File) (runs : list fileRun)
  (fls : list failure) (fl : failure) (ev : event) :
  Forall (fewFailures maxRetries) runs ->
  Z.of_nat (length fls) = maxRetries ->
  In ev
    (batchSegments maxRetries retryDelay timestamp total 0 pre runs
       ++ exhaustedSegment maxRetries retryDelay timestamp total (length pre)
            file fls fl) ->
  exists (j : nat) (f : File) (hi : Z),
    eventOfFile maxRetries timestamp j f 0 hi ev.
Proof.
  intros Hfew Hfls Hin. apply in_app_or in Hin. destruct Hin as [Hin|Hin].
  - destruct (batchSegments_events _ _ _ _ _ _ _ _ Hfew Hin)
      as (j & f & _ & _ & Hev).
    exists j, f, maxRetries. exact Hev.
  - pose proof (exhaustedSegment_events maxRetries retryDelay timestamp total
                  (length pre) file fls fl Hfls) as Hall.
    rewrite Forall_forall in Hall.
    exists (length pre), file, (maxRetries + 1). exact (Hall _ Hin).
Qed.

Lemma firstn_prefix {A} (pre post : list A) :
  firstn (length pre) (pre ++ post) = pre.
Proof.
  rewrite firstn_app, Nat.sub_diag, firstn_all. cbn. apply app_nil_r.
Qed.

(** C2, amended.  Suppose the console shows that attempt [maxRetries + 1] of
    [maxRetries + 1] failed for the file at index [k] (file number [k + 1]):
    that file used up its attempts.  Then the call throws the file-upload
    [AppError] whose message carries that file's name, whatever the
    deletion does.  The events split into those before the roll-back and
    the roll-back.  Before it, the store accepted exactly one blob for
    each of the [k] earlier files, in order, and nothing was deleted or
    announced.  If [k = 0] there is no roll-back at all: no deletion call
    is made.  If [k > 0] the roll-back is the announcement followed by
    exactly one complete run of [deleteAntragFiles] on the [k] stored URLs
    with the default settings, which calls the store's [del] between one
    and four times, each time with all [k] URLs, and whose result is
    ignored.  No [put] is made for any file after index [k]. *)
Theorem uploadAntragFiles_rollback (env : Env) (maxRetries retryDelay : Z)
  (cfg : Config) (files : option (list File)) (tr : World)
  (r : outcome (list jsstring)) (new : list event) (k : nat) (err : exn) :
  uploadAntragFiles env maxRetries retryDelay cfg files tr = (r, tr ++ new) ->
  In (EvConsole (ErrUploadAttemptFailed (maxRetries + 1) (maxRetries + 1)
                   (Z.of_nat k + 1) err)) new ->
  exists (file : File) (before cleanup : list event) (urls : list jsstring),
    nth_error (present files) k = Some file
    /\ r = Throw (AppError FILE_UPLOAD (fileUploadMessage (name file)))
    /\ new = before ++ cleanup
    /\ storedBlobs before
       = combine (pathsFrom (getTime env tr) 0 (firstn k (present files))) urls
    /\ length urls = k
    /\ delCalls before = []
    /\ ~ In (EvConsole LogCleaningUpAfterFailure) before
    /\ (k = O -> cleanup = [])
    /\ ((0 < k)%nat ->
        exists (result : DeletionOutcome) (devs : list event),
          cleanup = EvConsole LogCleaningUpAfterFailure :: devs
          /\ deleteAntragFiles env (Some urls) DEFAULT_MAX_RETRIES
               DEFAULT_RETRY_DELAY
               (tr ++ before ++ [EvConsole LogCleaningUpAfterFailure])
             = (Ok result, tr ++ new)
          /\ (forall us ok, In (us, ok) (delCalls new) -> us = urls)
          /\ (1 <= length (delCalls new) <= 4)%nat)
    /\ (forall (j : nat) (file' : File),
           (k < j)%nat ->
           nth_error (present files) j = Some file' ->
           ~ In (pathOf (getTime env tr) j file') (putPaths new)).
Proof.
  intros Hrun Hfailed.
  destruct (upload_run env maxRetries retryDelay cfg files tr)
    as (r0 & new0 & Hrun0 & Hshape).
  rewrite Hrun0 in Hrun. inversion Hrun as [[Hr Hnew]].
  apply app_inv_head in Hnew. subst r0 new0. clear Hrun.
  destruct Hshape as [e He | _ Hnone | _ _ Hneg | runs _ _ Hpos Hlen Hfew
                     | pre file post runs fls fl cleanup _ Hpos Hsplit Hlen
                         Hfew Hfls Hclean];
    try contradiction.
  { exfalso.
    destruct (batchSegments_events _ _ _ _ _ _ _ _ Hfew Hfailed)
      as (j & f & _ & _ & Hev).
    cbn in Hev. lia. }
  (* the file that failed is the one after [pre] *)
  assert (Hk : k = length pre).
  { apply in_app_or in Hfailed. destruct Hfailed as [Hin|Hin].
    { exfalso.
      destruct (batchSegments_events _ _ _ _ _ _ _ _ Hfew Hin)
        as (j & f & _ & _ & Hev).
      cbn in Hev. lia. }
    apply in_app_or in Hin. destruct Hin as [Hin|Hin].
    { pose proof (exhaustedSegment_events maxRetries retryDelay
                    (getTime env tr) (length (present files)) (length pre)
                    file fls fl Hfls) as Hall.
      rewrite Forall_forall in Hall. specialize (Hall _ Hin). cbn in Hall.
      lia. }
    exfalso. apply cleanUpRun_events in Hclean.
    rewrite Forall_forall in Hclean.
    destruct (Hclean _ Hin) as [H|H]; [discriminate|exact H]. }
  subst k.
  set (before := batchSegments maxRetries retryDelay (getTime env tr)
                   (length (present files)) 0 pre runs
                 ++ exhaustedSegment maxRetries retryDelay (getTime env tr)
                      (length (present files)) (length pre) file fls fl).
  assert (Hbefore : forall ev, In ev before ->
                      exists j f hi,
                        eventOfFile maxRetries (getTime env tr) j f 0 hi ev).
  { intros ev Hin.
    exact (upload_events_before_cleanup _ _ _ _ _ _ _ _ _ _ Hfew Hfls Hin). }
  exists file, before, cleanup, (map storedUrl runs).
  split; [rewrite Hsplit, nth_error_app2, Nat.sub_diag by lia; reflexivity|].
  split; [reflexivity|].
  split; [unfold before; rewrite <- app_assoc; reflexivity|].
  split.
  { unfold before.
    rewrite storedBlobs_app, storedBlobs_exhaustedSegment, app_nil_r,
      Hsplit, firstn_prefix.
    apply storedBlobs_batchSegments. assumption. }
  split; [rewrite length_map; assumption|].
  split.
  { apply delCalls_none. intros us rej Hin.
    destruct (Hbefore _ Hin) as (j & f & hi & Hev). exact Hev. }
  split.
  { intros Hin. destruct (Hbefore _ Hin) as (j & f & hi & Hev). exact Hev. }
  replace (tr ++ batchSegments maxRetries retryDelay (getTime env tr)
                   (length (present files)) 0 pre runs
              ++ exhaustedSegment maxRetries retryDelay (getTime env tr)
                   (length (present files)) (length pre) file fls fl)
    with (tr ++ before) in Hclean by reflexivity.
  split; [|split].
  - intros Hzero.
    destruct Hclean as [Hnil | result devs Hne _ _]; [reflexivity|].
    exfalso. destruct runs; [apply Hne; reflexivity|].
    cbn [length] in Hlen. lia.
  - intros Hsome.
    destruct Hclean as [Hnil | result devs Hne Hdel Hshape].
    { destruct runs; [cbn [length] in Hlen; lia|discriminate]. }
    exists result, devs. split; [reflexivity|].
    split.
    { rewrite <- !app_assoc in Hdel. rewrite Hdel. f_equal. unfold before.
      rewrite <- !app_assoc. reflexivity. }
    assert (Hcalls : delCalls
                       (batchSegments maxRetries retryDelay (getTime env tr)
                          (length (present files)) 0 pre runs
                        ++ exhaustedSegment maxRetries retryDelay
                             (getTime env tr) (length (present files))
                             (length pre) file fls fl
                        ++ EvConsole LogCleaningUpAfterFailure :: devs)
                     = delCalls devs).
    { rewrite app_assoc. fold before. rewrite delCalls_app.
      rewrite (delCalls_none before); [reflexivity|].
      intros us rej Hin.
      destruct (Hbefore _ Hin) as (j & f & hi & Hev). exact Hev. }
    rewrite Hcalls. split.
    + intros us ok Hin. apply delCalls_In in Hin.
      destruct Hin as (rej & Hin & _).
      pose proof (deletionRun_events _ _ _ _ _ Hshape) as Hall.
      rewrite Forall_forall in Hall. exact (Hall _ Hin).
    + destruct (deletionRun_calls _ _ _ _ _ Hshape)
        as [(_ & _ & _ & Hc)
           |(_ & _ & [[Hnil _]|(_ & n & Hn & Hc)])];
        try contradiction; rewrite Hc.
      * rewrite repeat_length. unfold DEFAULT_MAX_RETRIES. cbn. lia.
      * rewrite length_app, repeat_length. unfold DEFAULT_MAX_RETRIES in Hn.
        cbn [length]. lia.
  - intros j file' Hj Hnth Hin.
    apply putPaths_In in Hin. destruct Hin as (b & o & res & Hin).
    destruct (exhausted_puts_bounded _ _ _ _ _ _ _ _ _ _ _ _ _ _ _ _ _ _
                Hfew Hfls Hclean Hin) as (j' & f & Hj' & Hp).
    apply blobPathnameOf_index in Hp. lia.
Qed.

(** ** Validation *)

Lemma typeAllowed_In (allowList : list jsstring) (file : File) :
  typeAllowed allowList file = true <-> In (type file) allowList.
Proof.
  unfold typeAllowed. rewrite existsb_exists. split.
  - intros (t & Hin & Heq). apply jsstring_eqb_eq in Heq. congruence.
  - intros Hin. exists (type file). split; [assumption|apply jsstring_eqb_refl].
Qed.

(** The shared routine of the spec reports invalid, with messages, exactly
    on a count, size or type violation. *)
Lemma validateFiles_spec_verdict (texts : ValidationTexts) (files : list File)
  (countLimit perFileSizeLimit : Z) (allowList : list jsstring) :
  let verdict :=
    validateFiles_spec texts files countLimit perFileSizeLimit allowList in
  let violation :=
    countLimit < Z.of_nat (length files)
    \/ Exists (fun file => perFileSizeLimit < size file) files
    \/ Exists (fun file => ~ In (type file) allowList) files in
  (violation -> isValid verdict = false /\ exists errs, errors verdict = Some errs)
  /\ (~ violation -> isValid verdict = true).
Proof.
  cbv zeta. unfold validateFiles_spec.
  assert (H1 : (Z.of_nat (length files) >? countLimit) = true
               <-> countLimit < Z.of_nat (length files))
    by (rewrite Z.gtb_ltb; apply Z.ltb_lt).
  assert (H2 : existsb (fun file => size file >? perFileSizeLimit) files = true
               <-> Exists (fun file => perFileSizeLimit < size file) files).
  { rewrite existsb_exists, Exists_exists.
    split; intros (f & Hin & Hf); exists f; (split; [assumption|]);
      rewrite Z.gtb_ltb in *; apply Z.ltb_lt; assumption. }
  assert (H3 : existsb (fun file => negb (typeAllowed allowList file)) files = true
               <-> Exists (fun file => ~ In (type file) allowList) files).
  { rewrite existsb_exists, Exists_exists.
    split; intros (f & Hin & Hf); exists f; (split; [assumption|]).
    - rewrite negb_true_iff in Hf. intros Hal.
      apply typeAllowed_In in Hal. congruence.
    - rewrite negb_true_iff. destruct (typeAllowed allowList f) eqn:E;
        [|reflexivity].
      apply typeAllowed_In in E. contradiction. }
  destruct (Z.of_nat (length files) >? countLimit);
    destruct (existsb (fun file => size file >? perFileSizeLimit) files);
    destruct (existsb (fun file => negb (typeAllowed allowList file)) files);
    cbn [app isValid errors]; split;
    first
      [ (* some check failed *)
        solve [ intros _; split; [reflexivity|eexists; reflexivity] ]
      | solve [ intros Hno; exfalso; apply Hno;
                first [ left; apply H1; reflexivity
                      | right; left; apply H2; reflexivity
                      | right; right; apply H3; reflexivity ] ]
      | (* no check failed *)
        solve [ intros [H|[H|H]];
                [apply H1 in H|apply H2 in H|apply H3 in H]; discriminate ]
      | solve [ intros _; reflexivity ] ].
Qed.

(** The decision of [validateAntragFiles], in the terms of its own
    locals. *)
Lemma validateAntragFiles_decision :
  (forall cfg : Config,
      validateAntragFiles cfg None = Ok tt
      /\ validateAntragFiles cfg (Some []) = Ok tt)
  /\ (forall (countLimit perFileSizeLimit totalLimit : Z)
             (allowList : list jsstring) (texts : ValidationTexts)
             (requiredText : jsstring -> jsstring)
             (fileSizeExceedsText : jsstring -> Q -> jsstring)
             (files : list File),
         files <> [] ->
         let cfg := specConfig countLimit perFileSizeLimit totalLimit allowList
                      texts requiredText fileSizeExceedsText in
         let refused :=
           countLimit < Z.of_nat (length files)
           \/ Exists (fun file => perFileSizeLimit < size file) files
           \/ Exists (fun file => ~ In (type file) allowList) files
           \/ totalLimit < totalSizeOf files in
         (refused ->
          exists message,
            validateAntragFiles cfg (Some files)
            = Throw (ValidationError [(lit "files", message)]))
         /\ (~ refused -> validateAntragFiles cfg (Some files) = Ok tt))
  /\ (forall (cfg : Config) (files : list File),
         files <> [] ->
         let verdict :=
           validateFiles cfg files (ANTRAG_COUNT cfg) (ANTRAG cfg)
             (FILE_TYPES_ANTRAG cfg) in
         (forall errs,
             isValid verdict = false -> errors verdict = Some errs ->
             validateAntragFiles cfg (Some files)
             = Throw (ValidationError
                        [(lit "files",
                          firstErrorOr errs (required cfg (lit "files")))]))
         /\ (isValid verdict = true \/ errors verdict = None ->
             validateAntragFiles cfg (Some files)
             = if totalSizeOf files >? ANTRAG_TOTAL cfg
               then Throw (ValidationError
                             [(lit "files",
                               fileSizeExceeds cfg (lit "files") (maxSizeMB cfg))])
               else Ok tt)).
Proof.
  split; [|split].
  - intros cfg. split; reflexivity.
  - intros countLimit perFileSizeLimit totalLimit allowList texts requiredText
      fileSizeExceedsText [|f fs] Hne; [congruence|]. cbv zeta.
    unfold validateAntragFiles. rewrite noFiles_cons.
    cbn [present specConfig validateFiles ANTRAG_COUNT ANTRAG ANTRAG_TOTAL
           FILE_TYPES_ANTRAG].
    set (files := f :: fs).
    destruct (validateFiles_spec_verdict texts files countLimit
                perFileSizeLimit allowList) as [Hbad Hgood].
    destruct (isValid (validateFiles_spec texts files countLimit
                         perFileSizeLimit allowList)) eqn:Hvalid.
    + (* the shared routine accepts: no count, size or type violation *)
      assert (Hnone : ~ (countLimit < Z.of_nat (length files)
                         \/ Exists (fun file => perFileSizeLimit < size file) files
                         \/ Exists (fun file => ~ In (type file) allowList) files)).
      { intros Hv. destruct (Hbad Hv) as [H _]. congruence. }
      cbn [negb andb].
      destruct (totalSizeOf files >? totalLimit) eqn:Htotal;
        rewrite Z.gtb_ltb in Htotal.
      * apply Z.ltb_lt in Htotal. split.
        -- intros _. eexists. reflexivity.
        -- intros Hno. exfalso. apply Hno. tauto.
      * apply Z.ltb_ge in Htotal. split.
        -- intros [H|[H|[H|H]]]; [exfalso; tauto ..|lia].
        -- reflexivity.
    + assert (Hv : countLimit < Z.of_nat (length files)
                   \/ Exists (fun file => perFileSizeLimit < size file) files
                   \/ Exists (fun file => ~ In (type file) allowList) files).
      { destruct (Z_lt_dec countLimit (Z.of_nat (length files))) as [|H1];
          [tauto|].
        destruct (Exists_dec (fun file => perFileSizeLimit < size file) files
                    (fun file => Z_lt_dec perFileSizeLimit (size file)))
          as [|H2]; [tauto|].
        apply Decidable.not_not.
        { unfold Decidable.decidable.
          destruct (Exists_dec (fun file => ~ In (type file) allowList) files)
            as [|H3]; [|tauto|].
          - intros file.
            destruct (in_dec (list_eq_dec N.eq_dec) (type file) allowList);
              [right|left]; tauto.
          - right. tauto. }
        intros Hno. specialize (Hgood Hno). congruence. }
      destruct (Hbad Hv) as [_ [errs Herrs]]. rewrite Herrs. cbn [negb andb].
      split.
      * intros _. eexists. reflexivity.
      * intros Hno. exfalso. apply Hno. tauto.
  - intros cfg [|f fs] Hne; [congruence|]. cbv zeta.
    unfold validateAntragFiles. rewrite noFiles_cons. cbn [present].
    split.
    + intros errs Hinvalid Herrs. rewrite Hinvalid, Herrs. reflexivity.
    + intros [Hvalid|Hnone]; [rewrite Hvalid|rewrite Hnone, andb_false_r];
        reflexivity.
Qed.

(** The [reduce] of [validateAntragFiles] adds up the sizes of the batch. *)
Lemma totalSizeOf_sum (files : list File) :
  totalSizeOf files = fold_right Z.add 0 (map size files).
Proof.
  unfold totalSizeOf.
  assert (H : forall a,
             fold_left (fun sum file => sum + size file) files a
             = a + fold_right Z.add 0 (map size files)).
  { induction files as [|f files IH]; intros a; cbn [fold_left map fold_right];
      [lia|].
    rewrite IH. lia. }
  rewrite H. lia.
Qed.

Lemma firstErrorOr_cases (errs : list jsstring) (fallback : jsstring) :
  (hd [] errs <> [] -> firstErrorOr errs fallback = hd [] errs)
  /\ (hd [] errs = [] -> firstErrorOr errs fallback = fallback).
Proof.
  destruct errs as [|[|c msg] errs]; cbn; split; congruence.
Qed.

(** C4.  [validateAntragFiles] is a function of the batch alone.  On an
    absent or empty batch it returns.  With the shared routine of the spec,
    on a non-empty batch it throws a [ValidationError] that maps the field
    [files] to a message exactly when the file count exceeds the maximum,
    or some file exceeds the per-file limit, or some file's type is not in
    the allow-list, or the sum of the sizes of all files exceeds the total
    limit; otherwise it returns.  A batch that breaks none of the count,
    size and type rules but whose sizes add up to more than the total limit
    is refused with the size message for the limit in MiB.  Whatever the
    shared routine is: when it reports invalid with messages, its first
    message is thrown (the [required] text if that message is missing or
    empty) and the sum is not looked at; when it does not, the outcome is
    decided by the sum of the sizes alone. *)
Theorem validateAntragFiles_verdict :
  (forall cfg : Config,
      validateAntragFiles cfg None = Ok tt
      /\ validateAntragFiles cfg (Some []) = Ok tt)
  /\ (forall (countLimit perFileSizeLimit totalLimit : Z)
             (allowList : list jsstring) (texts : ValidationTexts)
             (requiredText : jsstring -> jsstring)
             (fileSizeExceedsText : jsstring -> Q -> jsstring)
             (files : list File),
         files <> [] ->
         let cfg := specConfig countLimit perFileSizeLimit totalLimit allowList
                      texts requiredText fileSizeExceedsText in
         let aggregate := fold_right Z.add 0 (map size files) in
         let brokenRule :=
           countLimit < Z.of_nat (length files)
           \/ Exists (fun file => perFileSizeLimit < size file) files
           \/ Exists (fun file => ~ In (type file) allowList) files in
         (brokenRule \/ totalLimit < aggregate ->
          exists message,
            validateAntragFiles cfg (Some files)
            = Throw (ValidationError [(lit "files", message)]))
         /\ (~ (brokenRule \/ totalLimit < aggregate) ->
             validateAntragFiles cfg (Some files) = Ok tt)
         /\ (~ brokenRule -> totalLimit < aggregate ->
             validateAntragFiles cfg (Some files)
             = Throw (ValidationError
                        [(lit "files",
                          fileSizeExceedsText (lit "files")
                            (inject_Z totalLimit / inject_Z (1024 * 1024))%Q)])))
  /\ (forall (cfg : Config) (files : list File),
         files <> [] ->
         let verdict :=
           validateFiles cfg files (ANTRAG_COUNT cfg) (ANTRAG cfg)
             (FILE_TYPES_ANTRAG cfg) in
         let aggregate := fold_right Z.add 0 (map size files) in
         (forall errs,
             isValid verdict = false -> errors verdict = Some errs ->
             exists message,
               validateAntragFiles cfg (Some files)
               = Throw (ValidationError [(lit "files", message)])
               /\ (hd [] errs <> [] -> message = hd [] errs)
               /\ (hd [] errs = [] -> message = required cfg (lit "files")))
         /\ (isValid verdict = true \/ errors verdict = None ->
             (ANTRAG_TOTAL cfg < aggregate ->
              validateAntragFiles cfg (Some files)
              = Throw (ValidationError
                         [(lit "files",
                           fileSizeExceeds cfg (lit "files")
                             (inject_Z (ANTRAG_TOTAL cfg)
                              / inject_Z (1024 * 1024))%Q)]))
             /\ (aggregate <= ANTRAG_TOTAL cfg ->
                 validateAntragFiles cfg (Some files) = Ok tt))).
Proof.
  destruct validateAntragFiles_decision as (Hempty & Hspec & Hany).
  split; [exact Hempty|]. split.
  - intros countLimit perFileSizeLimit totalLimit allowList texts requiredText
      fileSizeExceedsText files Hne. cbv zeta.
    rewrite <- totalSizeOf_sum.
    destruct (Hspec countLimit perFileSizeLimit totalLimit allowList texts
                requiredText fileSizeExceedsText files Hne) as [Hthrow Hok].
    split; [intros H; apply Hthrow; tauto|].
    split; [intros H; apply Hok; tauto|].
    intros Hrules Hsum.
    destruct (Hany (specConfig countLimit perFileSizeLimit totalLimit allowList
                      texts requiredText fileSizeExceedsText) files Hne)
      as [_ Hdecided].
    cbn [specConfig validateFiles ANTRAG_COUNT ANTRAG FILE_TYPES_ANTRAG
           ANTRAG_TOTAL fileSizeExceeds] in Hdecided.
    destruct (validateFiles_spec_verdict texts files countLimit
                perFileSizeLimit allowList) as [_ Hgood].
    rewrite (Hdecided (or_introl (Hgood Hrules))).
    replace (totalSizeOf files >? totalLimit) with true
      by (symmetry; rewrite Z.gtb_ltb; apply Z.ltb_lt; assumption).
    reflexivity.
  - intros cfg files Hne. cbv zeta. rewrite <- totalSizeOf_sum.
    destruct (Hany cfg files Hne) as [Hrefused Hdecided].
    split.
    + intros errs Hinvalid Herrs. eexists.
      split; [exact (Hrefused errs Hinvalid Herrs)|].
      apply firstErrorOr_cases.
    + intros Haccepted. rewrite (Hdecided Haccepted). split.
      * intros Hsum.
        replace (totalSizeOf files >? ANTRAG_TOTAL cfg) with true
          by (symmetry; rewrite Z.gtb_ltb; apply Z.ltb_lt; assumption).
        reflexivity.
      * intros Hsum.
        replace (totalSizeOf files >? ANTRAG_TOTAL cfg) with false
          by (symmetry; rewrite Z.gtb_ltb; apply Z.ltb_ge; assumption).
        reflexivity.
Qed.

(* ================================================================== *)
(** ** The properties on the small batches *)

Ltac not_among :=
  let H := fresh "H" in
  intros H; vm_compute in H;
  repeat (destruct H as [H|H]; [try discriminate H|]);
  try contradiction.

(** C1 as stated fails: with [maxRetries = -1] a one-file batch that passes
    validation gives a result that is not an error and has length 0. *)
Lemma uploadAntragFiles_length_counterexample :
  validateAntragFiles demoConfig (Some [demoPdf]) = Ok tt
  /\ demoNegativeRun = (Ok [], [])
  /\ length (@nil jsstring) <> length [demoPdf].
Proof.
  split; [vm_compute; reflexivity|].
  split; [vm_compute; reflexivity|].
  cbn. discriminate.
Qed.

Lemma uploadAntragFiles_one_url_per_file_witness :
  exists new : list event,
    snd demoStoredRun = [] ++ new
    /\ ((exists urls : list jsstring,
            fst demoStoredRun = Ok urls
            /\ length urls = length (present (Some [demoPdf; demoPng]))
            /\ storedBlobs new
               = combine
                   (pathsFrom
                      (getTime (scriptedStore demoTime [true; true] []) []) 0
                      (present (Some [demoPdf; demoPng]))) urls)
        \/ (exists e : exn, fst demoStoredRun = Throw e)).
Proof.
  apply (uploadAntragFiles_one_url_per_file
           (scriptedStore demoTime [true; true] []) 3 1000 demoConfig
           (Some [demoPdf; demoPng]) [] (snd demoStoredRun) (fst demoStoredRun)).
  - lia.
  - vm_compute. reflexivity.
  - vm_compute. reflexivity.
Defined.

(** C2 as stated fails for the first file: when the only file of a batch
    uses up its four attempts, the call throws, but the store's [del] is
    never called and no roll-back is announced: there are zero deletion
    calls, not one. *)
Lemma uploadAntragFiles_rollback_counterexample :
  In (EvConsole (ErrUploadAttemptFailed 4 4 1
                   (OtherError (lit "store unavailable"))))
    (snd demoRefusedRun)
  /\ fst demoRefusedRun
     = Throw (AppError FILE_UPLOAD (fileUploadMessage (name demoPdf)))
  /\ length (delCalls (snd demoRefusedRun)) <> 1%nat
  /\ ~ In (EvConsole LogCleaningUpAfterFailure) (snd demoRefusedRun).
Proof.
  split; [vm_compute; repeat (first [left; reflexivity | right])|].
  split; [vm_compute; reflexivity|].
  split; [vm_compute; discriminate|].
  not_among.
Qed.

Lemma uploadAntragFiles_rollback_witness :
  exists (file : File) (before cleanup : list event) (urls : list jsstring),
    nth_error (present (Some [demoPdf; demoPng])) 1 = Some file
    /\ fst demoRolledBackRun
       = Throw (AppError FILE_UPLOAD (fileUploadMessage (name file)))
    /\ snd demoRolledBackRun = before ++ cleanup
    /\ storedBlobs before
       = combine
           (pathsFrom
              (getTime (scriptedStore demoTime [true; false; false]
                          [false; true]) []) 0
              (firstn 1 (present (Some [demoPdf; demoPng])))) urls
    /\ length urls = 1%nat
    /\ delCalls before = []
    /\ ~ In (EvConsole LogCleaningUpAfterFailure) before
    /\ (1%nat = O -> cleanup = [])
    /\ ((0 < 1)%nat ->
        exists (result : DeletionOutcome) (devs : list event),
          cleanup = EvConsole LogCleaningUpAfterFailure :: devs
          /\ deleteAntragFiles
               (scriptedStore demoTime [true; false; false] [false; true])
               (Some urls) DEFAULT_MAX_RETRIES DEFAULT_RETRY_DELAY
               ([] ++ before ++ [EvConsole LogCleaningUpAfterFailure])
             = (Ok result, [] ++ snd demoRolledBackRun)
          /\ (forall us ok,
                 In (us, ok) (delCalls (snd demoRolledBackRun)) -> us = urls)
          /\ (1 <= length (delCalls (snd demoRolledBackRun)) <= 4)%nat)
    /\ (forall (j : nat) (file' : File),
           (1 < j)%nat ->
           nth_error (present (Some [demoPdf; demoPng])) j = Some file' ->
           ~ In (pathOf
                   (getTime (scriptedStore demoTime [true; false; false]
                               [false; true]) []) j file')
               (putPaths (snd demoRolledBackRun))).
Proof.
  apply (uploadAntragFiles_rollback
           (scriptedStore demoTime [true; false; false] [false; true]) 1 1000
           demoConfig (Some [demoPdf; demoPng]) [] (fst demoRolledBackRun)
           (snd demoRolledBackRun) 1 (OtherError (lit "store unavailable"))).
  - vm_compute. reflexivity.
  - vm_compute. repeat (first [left; reflexivity | right]).
Defined.

Lemma uploadAntragFiles_validation_first_witness :
  uploadAntragFiles (scriptedStore demoTime [true] []) 3 1000 demoConfig
    (Some [demoHuge])
    [] = (Throw (ValidationError [(lit "files", lit "file too large")]), [])
  /\ exists fields,
      ValidationError [(lit "files", lit "file too large")]
      = ValidationError fields.
Proof.
  apply (uploadAntragFiles_validation_first
           (scriptedStore demoTime [true] []) 3 1000 demoConfig
           (Some [demoHuge]) []
           (ValidationError [(lit "files", lit "file too large")])).
  vm_compute. reflexivity.
Defined.

Lemma uploadAntragFiles_backoff_witness :
  0 <= 3
  /\ (exists before after : list obs,
         observe (snd demoRefusedRun)
         = before
             ++ backoffSchedule (pathOf demoTime 0 demoPdf) 1000 0 (Z.to_nat 3)
             ++ after
         /\ Forall (fun o => obsPutOn (pathOf demoTime 0 demoPdf) o = false)
              (before ++ after))
  /\ Z.of_nat (putAttemptsOn (pathOf demoTime 0 demoPdf)
                 (observe (snd demoRefusedRun)))
     = 3 + 1
  /\ (forall k : nat,
         (k < Z.to_nat 3)%nat ->
         nth_error
           (backoffSchedule (pathOf demoTime 0 demoPdf) 1000 0 (Z.to_nat 3))
           (2 * k + 1)
         = Some (ObsSleep (1000 * 2 ^ Z.of_nat k)))
  /\ (forall p : jsstring,
         backoffSchedule p 1000 0 (Z.to_nat 3)
         = [ObsPutFailed p; ObsSleep 1000; ObsPutFailed p; ObsSleep 2000;
            ObsPutFailed p; ObsSleep 4000; ObsPutFailed p]).
Proof.
  apply (uploadAntragFiles_backoff (scriptedStore demoTime [] []) 3 1000
           demoConfig (Some [demoPdf]) [] (fst demoRefusedRun)
           (snd demoRefusedRun) 0 demoPdf).
  - vm_compute. reflexivity.
  - reflexivity.
  - vm_compute. left. reflexivity.
  - intros b o url. not_among.
  - intros e. not_among.
Defined.

Lemma uploadAntragFiles_negative_budget_witness :
  demoNegativeRun = (Ok [], [])
  /\ length (@nil jsstring) <> length [demoPdf].
Proof.
  apply (uploadAntragFiles_negative_budget (scriptedStore demoTime [true] [])
           (-1) 1000 demoConfig [demoPdf] []).
  - discriminate.
  - vm_compute. reflexivity.
  - lia.
Defined.

Lemma validateAntragFiles_verdict_witness :
  validateAntragFiles demoConfig (Some demoLargeBatch)
  = Throw (ValidationError [(lit "files", lit "files too large")]).
Proof.
  apply (proj2 (proj2 (proj1 (proj2 validateAntragFiles_verdict)
                         5 5242880 10485760
                         [lit "application/pdf"; lit "image/png"]
                         demoTexts (fun field => field ++ lit " required")
                         (fun field _ => field ++ lit " too large")
                         demoLargeBatch ltac:(discriminate)))).
  - intros [Hcount|[Hsize|Htype]].
    + vm_compute in Hcount. discriminate Hcount.
    + apply Exists_exists in Hsize. destruct Hsize as (f & Hin & Hf).
      cbn in Hin. destruct Hin as [<-|[<-|[<-|[]]]];
        vm_compute in Hf; discriminate Hf.
    + apply Exists_exists in Htype. destruct Htype as (f & Hin & Hf).
      cbn in Hin. destruct Hin as [<-|[<-|[<-|[]]]];
        apply Hf; left; reflexivity.
  - vm_compute. reflexivity.
Defined.

Lemma deleteAntragFiles_reports_outcome_witness :
  exists (r : DeletionOutcome) (new : list event),
    deleteAntragFiles (scriptedStore demoTime [] [false; true])
      (Some [lit "https://blob.example/a"]) 3 1000 []
    = (Ok r, [] ++ new)
    /\ (success r = true
        <-> forall u : jsstring,
              In u (present (Some [lit "https://blob.example/a"])) ->
              exists us, In (us, true) (delCalls new) /\ In u us).
Proof.
  exact (deleteAntragFiles_reports_outcome
           (scriptedStore demoTime [] [false; true])
           (Some [lit "https://blob.example/a"]) 3 1000 []).
Defined.

Lemma deleteAntragFiles_all_or_nothing_witness :
  exists (r : DeletionOutcome) (new : list event),
    deleteAntragFiles (scriptedStore demoTime [] []) 
      (Some [lit "https://blob.example/a"; lit "https://blob.example/b"])
      3 1000 []
    = (Ok r, [] ++ new)
    /\ success r = false /\ deletedUrls r = []
    /\ delCalls new
       = repeat ([lit "https://blob.example/a"; lit "https://blob.example/b"],
                 false) 4.
Proof.
  destruct (deleteAntragFiles_all_or_nothing (scriptedStore demoTime [] [])
              (Some [lit "https://blob.example/a"; lit "https://blob.example/b"])
              3 1000 [])
    as (r & new & Hrun & _ & _ & Hgave_up & _).
  exists r, new. split; [exact Hrun|].
  apply Hgave_up; [discriminate|].
  intros us Hin. vm_compute in Hrun. inversion Hrun; subst new.
  vm_compute in Hin.
  repeat (destruct Hin as [Hin|Hin]; [discriminate Hin|]). contradiction.
Defined.


(* ================================================================== *)
(** ** The deployment script *)

(** Split a run of either script by what [./db] answers at each call. *)
Ltac build_cases :=
  unfold SafeBuild.script, SafeBuild.main, ResetBuild.script, ResetBuild.main,
    bbind, bcatch, buildConsole, callValue, callEffect, processExit, bret;
  repeat match goal with
    | |- context [validateEnvironmentOutcome ?d ?t] =>
        destruct (validateEnvironmentOutcome d t) as [?|[|]]
    | |- context [validateSchemaOutcome ?d ?t] =>
        destruct (validateSchemaOutcome d t) as [?|[|]]
    | |- context [IS_VERCEL ?d] => destruct (IS_VERCEL d)
    | |- context [resetDatabaseOutcome ?d ?t] =>
        destruct (resetDatabaseOutcome d t) as [?|]
    | |- context [resetMigrationsOutcome ?d ?t] =>
        destruct (resetMigrationsOutcome d t) as [?|]
    | |- context [deploySchemaOutcome ?d ?t] =>
        destruct (deploySchemaOutcome d t) as [?|[|]]
    | |- context [deploySchemaSafelyOutcome ?d ?t] =>
        destruct (deploySchemaSafelyOutcome d t) as [?|[|]]
    | _ => progress cbn [negb]
    end.

Ltac build_trace := rewrite <- ?app_assoc; cbn [app]; reflexivity.

Ltac among H :=
  cbn in H; repeat (destruct H as [H|H]; [try discriminate H|]);
  try contradiction.

(** X12.  The safe script always ends in [process.exit] with code 0 or 1:
    it never falls off the end of [main] and never lets an exception of
    [./db] escape.  The code is 0 exactly when the environment validation,
    the schema validation and the safe deployment were all run and each
    returned a truthy value. *)
Theorem safeBuild_exit_code (db : Db) (tr : BuildWorld) :
  exists (code : Z) (new : list buildEvent),
    SafeBuild.script db tr = (Exited code, tr ++ new)
    /\ (code = 0 \/ code = 1)
    /\ (code = 0 <-> stepsOf new = map (fun s => (s, true)) safePlan).
Proof.
  build_cases;
    (eexists; eexists; split; [build_trace|]);
    (split; [auto|]);
    (split; [intros H; first [discriminate H | reflexivity]
            | intros H; first [discriminate H | reflexivity]]).
Qed.

(** X13.  The safe script runs its three steps in order, each at most once,
    and stops at the first that fails; on Vercel or not, it never resets
    the database, never resets the migrations and never calls the plain
    [deploySchema]. *)
Theorem safeBuild_preserves_data (db : Db) (tr : BuildWorld) :
  exists (code : Z) (new : list buildEvent),
    SafeBuild.script db tr = (Exited code, tr ++ new)
    /\ map fst (stepsOf new) = firstn (length (stepsOf new)) safePlan
    /\ Forall (fun s => snd s = true) (removelast (stepsOf new))
    /\ (forall rejected, ~ In (BvResetDatabase rejected) new)
    /\ (forall thrown, ~ In (BvResetMigrations thrown) new)
    /\ (forall result, ~ In (BvDeploySchema result) new).
Proof.
  build_cases;
    (eexists; eexists; split; [build_trace|]);
    (split; [reflexivity|]);
    (split; [cbn; repeat constructor|]);
    (split; [|split]); intros x Hin; among Hin.
Qed.

(** X14.  The resetting script always ends in [process.exit] with code 0 or
    1, and the code is 0 exactly when every step of its plan was run and
    succeeded: both validations, the database reset when on Vercel, the
    migration reset and the deployment. *)
Theorem resetBuild_exit_code (db : Db) (tr : BuildWorld) :
  exists (code : Z) (new : list buildEvent),
    ResetBuild.script db tr = (Exited code, tr ++ new)
    /\ (code = 0 \/ code = 1)
    /\ (code = 0
        <-> stepsOf new = map (fun s => (s, true)) (resetPlan (IS_VERCEL db))).
Proof.
  build_cases;
    (eexists; eexists; split; [build_trace|]);
    (split; [auto|]);
    (split; [intros H; first [discriminate H | reflexivity]
            | intros H; first [discriminate H | reflexivity]]).
Qed.

(** X16.  The steps of the resetting script run in the order of its plan,
    each at most once, and the script stops at the first step that fails:
    the steps of a run are an initial part of the plan, and every step but
    the last one run has succeeded. *)
Theorem resetBuild_stops_at_first_failure (db : Db) (tr : BuildWorld) :
  exists (code : Z) (new : list buildEvent),
    ResetBuild.script db tr = (Exited code, tr ++ new)
    /\ map fst (stepsOf new)
       = firstn (length (stepsOf new)) (resetPlan (IS_VERCEL db))
    /\ Forall (fun s => snd s = true) (removelast (stepsOf new)).
Proof.
  build_cases;
    (eexists; eexists; split; [build_trace|]);
    (split; [reflexivity|cbn; repeat constructor]).
Qed.

(** X17.  In the resetting script the database is reset only on Vercel and
    only after both validations returned a truthy value; the schema is
    deployed only after the migrations were reset without an exception;
    and the schema is only validated after the environment was found
    valid. *)
Theorem resetBuild_gates (db : Db) (tr : BuildWorld) (code : Z)
  (new : list buildEvent) :
  ResetBuild.script db tr = (Exited code, tr ++ new) ->
  (forall rejected,
      In (BvResetDatabase rejected) new ->
      IS_VERCEL db = true
      /\ In (BvValidateEnvironment (inr true)) new
      /\ In (BvValidateSchema (inr true)) new)
  /\ (forall result,
         In (BvDeploySchema result) new ->
         In (BvResetMigrations None) new
         /\ In (BvValidateSchema (inr true)) new)
  /\ (forall result,
         In (BvValidateSchema result) new ->
         In (BvValidateEnvironment (inr true)) new).
Proof.
  intros Hrun.
  destruct (IS_VERCEL db) eqn:Hvercel.
  all: revert Hrun; build_cases; rewrite <- ?app_assoc; cbn [app];
    intros Hrun; inversion Hrun as [[Hcode Hnew]];
    apply app_inv_head in Hnew; subst new;
    (split; [|split]); intros x Hin; among Hin;
    repeat split; try reflexivity; try congruence;
    cbn; tauto.
Qed.

(* ================================================================== *)
(** ** More on deletions *)

Lemma waits_app (a b : list event) : waits (a ++ b) = waits a ++ waits b.
Proof. apply flat_map_app. Qed.

Lemma totalWait_app (a b : list event) :
  totalWait (a ++ b) = totalWait a + totalWait b.
Proof.
  unfold totalWait. rewrite waits_app.
  induction (waits a) as [|w ws IH]; cbn; [reflexivity|]. rewrite IH. lia.
Qed.

Lemma observe_failedDeleteRun (urls : list jsstring) (maxRetries retryDelay : Z)
  (errs : list exn) :
  forall attempt : Z,
    observe (failedDeleteRun urls maxRetries retryDelay attempt errs)
    = refusedWithWaits urls retryDelay attempt (length errs).
Proof.
  induction errs as [|e errs IH]; intros attempt;
    cbn [failedDeleteRun length refusedWithWaits]; [reflexivity|].
  rewrite !observe_app, IH. unfold failedDeleteAttempt, deleteRetryNote.
  destruct (0 <? attempt); reflexivity.
Qed.

Lemma totalWait_failedDeleteRun (urls : list jsstring)
  (maxRetries retryDelay : Z) (errs : list exn) :
  forall attempt : Z,
    0 <= attempt ->
    totalWait (failedDeleteRun urls maxRetries retryDelay attempt errs)
    = retryDelay * (2 ^ (attempt + Z.of_nat (length errs)) - 2 ^ attempt).
Proof.
  induction errs as [|e errs IH]; intros attempt Hpos;
    cbn [failedDeleteRun length].
  - rewrite Z.add_0_r. unfold totalWait. cbn. lia.
  - rewrite !totalWait_app, IH by lia.
    replace (attempt + Z.of_nat (S (length errs)))
      with (attempt + 1 + Z.of_nat (length errs)) by lia.
    replace (totalWait (failedDeleteAttempt urls maxRetries attempt e)) with 0
      by (unfold failedDeleteAttempt, deleteRetryNote;
          destruct (0 <? attempt); reflexivity).
    replace (totalWait (backoffWait retryDelay attempt))
      with (retryDelay * 2 ^ attempt)
      by (unfold totalWait; cbn; lia).
    replace (2 ^ (attempt + 1)) with (2 * 2 ^ attempt)
      by (rewrite Z.pow_add_r by lia; lia).
    lia.
Qed.

(** X6.  The store calls and waits of [deleteAntragFiles] are an
    exponential backoff: for a non-empty request and a budget that is not
    negative, [k <= maxRetries] refused [del] calls, the [j]-th followed by
    a wait of [retryDelay * 2 ^ (j - 1)], and then one last call whose
    acceptance is the [success] flag, with no wait after it; a failure
    report comes only after [maxRetries] such waits.  For an empty request
    or a negative budget there is neither a call nor a wait.  No [put] is
    ever made. *)
Theorem deleteAntragFiles_schedule (env : Env) (urls : option (list jsstring))
  (maxRetries retryDelay : Z) (tr : World) :
  exists (r : DeletionOutcome) (new : list event),
    deleteAntragFiles env urls maxRetries retryDelay tr = (Ok r, tr ++ new)
    /\ (present urls = [] \/ maxRetries < 0 -> observe new = [])
    /\ (present urls <> [] -> 0 <= maxRetries ->
        exists k : nat,
          Z.of_nat k <= maxRetries
          /\ (success r = false -> Z.of_nat k = maxRetries)
          /\ observe new
             = refusedWithWaits (present urls) retryDelay 0 k
                 ++ [ObsDel (present urls) (success r)]).
Proof.
  destruct (deleteAntragFiles_run env urls maxRetries retryDelay tr)
    as (r & new & Hrun & Hshape).
  exists r, new. split; [assumption|].
  destruct Hshape as [Hnil | Hne Hneg | errs Hne Hle | errs e Hne Heq].
  - split; [reflexivity|]. intros Hne. contradiction.
  - split; [reflexivity|]. intros _ Hpos. lia.
  - split; [intros [Hnil|Hneg]; [contradiction|lia]|].
    intros _ _. exists (length errs). split; [assumption|].
    split; [discriminate|].
    change (EvConsole (LogAttemptingDelete (length (present urls)))
              :: failedDeleteRun (present urls) maxRetries retryDelay 0 errs
              ++ successfulDeleteAttempt (present urls) maxRetries
                   (Z.of_nat (length errs)))
      with ([EvConsole (LogAttemptingDelete (length (present urls)))]
              ++ failedDeleteRun (present urls) maxRetries retryDelay 0 errs
              ++ successfulDeleteAttempt (present urls) maxRetries
                   (Z.of_nat (length errs))).
    rewrite !observe_app, observe_failedDeleteRun.
    unfold successfulDeleteAttempt, deleteRetryNote.
    destruct (0 <? Z.of_nat (length errs)); reflexivity.
  - split; [intros [Hnil|Hneg]; [contradiction|lia]|].
    intros _ _. exists (length errs). split; [lia|].
    split; [intros _; assumption|].
    change (EvConsole (LogAttemptingDelete (length (present urls)))
              :: failedDeleteRun (present urls) maxRetries retryDelay 0 errs
              ++ failedDeleteAttempt (present urls) maxRetries maxRetries e
              ++ [EvConsole ErrDeleteMaxRetries])
      with ([EvConsole (LogAttemptingDelete (length (present urls)))]
              ++ failedDeleteRun (present urls) maxRetries retryDelay 0 errs
              ++ failedDeleteAttempt (present urls) maxRetries maxRetries e
              ++ [EvConsole ErrDeleteMaxRetries]).
    rewrite !observe_app, observe_failedDeleteRun.
    unfold failedDeleteAttempt, deleteRetryNote.
    destruct (0 <? maxRetries); reflexivity.
Qed.

(** The waits of a deletion add up to [retryDelay * (2 ^ k - 1)] for the
    number [k] of refused calls that were retried. *)
Lemma deletionRun_totalWait (urls : list jsstring) (maxRetries retryDelay : Z)
  (r : DeletionOutcome) (devs : list event) :
  deletionRun urls maxRetries retryDelay r devs ->
  exists k : Z,
    0 <= k <= Z.max 0 maxRetries
    /\ totalWait devs = retryDelay * (2 ^ k - 1).
Proof.
  intros [Hnil | Hne Hneg | errs Hne Hle | errs e Hne Heq].
  - exists 0. split; [lia|]. unfold totalWait. cbn. lia.
  - exists 0. split; [lia|]. unfold totalWait. cbn. lia.
  - exists (Z.of_nat (length errs)). split; [lia|].
    change (EvConsole (LogAttemptingDelete (length urls))
              :: failedDeleteRun urls maxRetries retryDelay 0 errs
              ++ successfulDeleteAttempt urls maxRetries (Z.of_nat (length errs)))
      with ([EvConsole (LogAttemptingDelete (length urls))]
              ++ failedDeleteRun urls maxRetries retryDelay 0 errs
              ++ successfulDeleteAttempt urls maxRetries (Z.of_nat (length errs))).
    rewrite !totalWait_app, totalWait_failedDeleteRun by lia.
    replace (totalWait (successfulDeleteAttempt urls maxRetries
                          (Z.of_nat (length errs)))) with 0
      by (unfold successfulDeleteAttempt, deleteRetryNote;
          destruct (0 <? _); reflexivity).
    unfold totalWait. cbn. lia.
  - exists (Z.of_nat (length errs)). split; [lia|].
    change (EvConsole (LogAttemptingDelete (length urls))
              :: failedDeleteRun urls maxRetries retryDelay 0 errs
              ++ failedDeleteAttempt urls maxRetries maxRetries e
              ++ [EvConsole ErrDeleteMaxRetries])
      with ([EvConsole (LogAttemptingDelete (length urls))]
              ++ failedDeleteRun urls maxRetries retryDelay 0 errs
              ++ failedDeleteAttempt urls maxRetries maxRetries e
              ++ [EvConsole ErrDeleteMaxRetries]).
    rewrite !totalWait_app, totalWait_failedDeleteRun by lia.
    replace (totalWait (failedDeleteAttempt urls maxRetries maxRetries e))
      with 0
      by (unfold failedDeleteAttempt, deleteRetryNote;
          destruct (0 <? _); reflexivity).
    unfold totalWait. cbn. lia.
Qed.

Lemma pow2_mono (a b : Z) : 0 <= a <= b -> 2 ^ a <= 2 ^ b.
Proof. intros H. apply Z.pow_le_mono_r; lia. Qed.

(** X7.  The time [deleteAntragFiles] spends waiting is bounded by its
    parameters alone: with a delay that is not negative, the waits add up
    to at most [retryDelay * (2 ^ maxRetries - 1)], and to nothing when the
    budget is negative. *)
Theorem deleteAntragFiles_wait_bound (env : Env)
  (urls : option (list jsstring)) (maxRetries retryDelay : Z) (tr : World) :
  0 <= retryDelay ->
  exists (r : DeletionOutcome) (new : list event),
    deleteAntragFiles env urls maxRetries retryDelay tr = (Ok r, tr ++ new)
    /\ 0 <= totalWait new <= retryDelay * (2 ^ Z.max 0 maxRetries - 1).
Proof.
  intros Hdelay.
  destruct (deleteAntragFiles_run env urls maxRetries retryDelay tr)
    as (r & new & Hrun & Hshape).
  exists r, new. split; [assumption|].
  destruct (deletionRun_totalWait _ _ _ _ _ Hshape) as (k & Hk & Hsum).
  rewrite Hsum.
  pose proof (pow2_mono 0 k ltac:(lia)) as Hlow.
  pose proof (pow2_mono k (Z.max 0 maxRetries) ltac:(lia)) as Hhigh.
  change (2 ^ 0) with 1 in Hlow. nia.
Qed.

(** X8.  With a negative retry budget [deleteAntragFiles] does not call the
    store at all: for a non-empty request it only prints its opening line
    and reports [success = false] with nothing deleted. *)
Theorem deleteAntragFiles_negative_budget (env : Env) (urls : list jsstring)
  (maxRetries retryDelay : Z) (tr : World) :
  urls <> [] ->
  maxRetries < 0 ->
  deleteAntragFiles env (Some urls) maxRetries retryDelay tr
  = (Ok (mkDeletionOutcome false []),
     tr ++ [EvConsole (LogAttemptingDelete (length urls))]).
Proof.
  intros Hne Hneg.
  destruct (deleteAntragFiles_run env (Some urls) maxRetries retryDelay tr)
    as (r & new & Hrun & Hshape).
  rewrite Hrun. cbn [present] in Hshape.
  destruct Hshape as [Hnil | _ _ | errs _ Hle | errs e _ Heq];
    [contradiction|reflexivity|lia|lia].
Qed.

(* ================================================================== *)
(** ** More on uploads *)

Lemma storedBlobs_none (evs : list event) :
  (forall p b o res, ~ In (EvPut p b o res) evs) -> storedBlobs evs = [].
Proof.
  induction evs as [|ev evs IH]; intros H; [reflexivity|].
  change (ev :: evs) with ([ev] ++ evs). rewrite storedBlobs_app.
  rewrite IH by (intros p b o res Hin; apply (H p b o res); right; assumption).
  destruct ev as [|p b o [e|url]| | |]; try reflexivity.
  exfalso. apply (H p b o (inr url)). left. reflexivity.
Qed.

Lemma putPaths_none (evs : list event) :
  (forall p b o res, ~ In (EvPut p b o res) evs) -> putPaths evs = [].
Proof.
  induction evs as [|ev evs IH]; intros H; [reflexivity|].
  change (ev :: evs) with ([ev] ++ evs). rewrite putPaths_app.
  rewrite IH by (intros p b o res Hin; apply (H p b o res); right; assumption).
  destruct ev as [|p b o res| | |]; try reflexivity.
  exfalso. apply (H p b o res). left. reflexivity.
Qed.

Lemma map_snd_combine_same {A C} (a : list A) (c : list C) :
  length a = length c -> map snd (combine a c) = c.
Proof.
  revert c. induction a as [|x a IH]; intros [|y c] H; cbn in *;
    try discriminate; [reflexivity|].
  f_equal. apply IH. lia.
Qed.

Lemma map_fst_combine_same {A C} (a : list A) (c : list C) :
  length a = length c -> map fst (combine a c) = a.
Proof.
  revert c. induction a as [|x a IH]; intros [|y c] H; cbn in *;
    try discriminate; [reflexivity|].
  f_equal. apply IH. lia.
Qed.

(** The stored files of a batch cause no deletion. *)
Lemma delCalls_batchSegments (maxRetries retryDelay timestamp : Z) (total : nat)
  (i : nat) (files : list File) (runs : list fileRun) :
  Forall (fewFailures maxRetries) runs ->
  delCalls (batchSegments maxRetries retryDelay timestamp total i files runs)
  = [].
Proof.
  intros Hfew. apply delCalls_none. intros us rej Hin.
  destruct (batchSegments_events _ _ _ _ _ _ _ _ Hfew Hin)
    as (j & f & _ & _ & Hev).
  exact Hev.
Qed.

(** X1.  An absent or empty input is a no-op for both functions, whatever
    the retry settings, the configuration and the store: [uploadAntragFiles]
    returns the empty list and [deleteAntragFiles] reports success with
    nothing deleted, and neither adds a single event, not even a console
    line. *)
Theorem empty_input_is_a_no_op (env : Env) (maxRetries retryDelay : Z)
  (cfg : Config) (files : option (list File)) (urls : option (list jsstring))
  (tr : World) :
  (noFiles files = true ->
   uploadAntragFiles env maxRetries retryDelay cfg files tr = (Ok [], tr))
  /\ (noFiles urls = true ->
      deleteAntragFiles env urls maxRetries retryDelay tr
      = (Ok (mkDeletionOutcome true []), tr)).
Proof.
  split; intros Hnone.
  - unfold uploadAntragFiles, bind, pure, validateAntragFiles.
    rewrite Hnone. reflexivity.
  - unfold deleteAntragFiles. rewrite Hnone. reflexivity.
Qed.

(** X2.  Whenever [uploadAntragFiles] returns a list, for any retry budget,
    that list is exactly the URLs the store handed out during the call, in
    the order it handed them out; they were handed out for the pathnames of
    the first files of the batch, in batch order; and the store's [del] was
    not called. *)
Theorem uploadAntragFiles_returns_what_was_stored (env : Env)
  (maxRetries retryDelay : Z) (cfg : Config) (files : option (list File))
  (tr : World) (urls : list jsstring) (new : list event) :
  uploadAntragFiles env maxRetries retryDelay cfg files tr
  = (Ok urls, tr ++ new) ->
  map snd (storedBlobs new) = urls
  /\ map fst (storedBlobs new)
     = pathsFrom (getTime env tr) 0 (firstn (length urls) (present files))
  /\ delCalls new = [].
Proof.
  intros Hrun.
  destruct (upload_run env maxRetries retryDelay cfg files tr)
    as (r0 & new0 & Hrun0 & Hshape).
  rewrite Hrun0 in Hrun. inversion Hrun as [[Hr Hnew]].
  apply app_inv_head in Hnew. subst r0 new0. clear Hrun.
  inversion Hshape as [ | _ Hnone Hr Hnew | _ _ Hneg Hr Hnew
                      | runs _ _ Hpos Hlen Hfew Hr Hnew | ]; subst.
  - repeat split.
  - repeat split.
  - rewrite storedBlobs_batchSegments by assumption.
    rewrite length_map, Hlen, firstn_all.
    rewrite map_snd_combine_same, map_fst_combine_same
      by (rewrite pathsFrom_length, length_map; congruence).
    repeat split. apply delCalls_batchSegments. assumption.
Qed.

(** X3.  Whenever [uploadAntragFiles] throws an [AppError], the blobs the
    store accepted during the call are rolled back as far as the store
    allows: if none was accepted, [del] is not called; otherwise [del] is
    called with exactly the list of all accepted URLs, again and again
    until the store accepts the call, which is then the last one, or until
    four calls were refused. *)
Theorem uploadAntragFiles_failure_rolls_back (env : Env)
  (maxRetries retryDelay : Z) (cfg : Config) (files : option (list File))
  (tr : World) (errorType : AppErrorType) (message : jsstring)
  (new : list event) :
  uploadAntragFiles env maxRetries retryDelay cfg files tr
  = (Throw (AppError errorType message), tr ++ new) ->
  (map snd (storedBlobs new) = [] -> delCalls new = [])
  /\ (map snd (storedBlobs new) <> [] ->
      (exists k : nat,
          (k <= 3)%nat
          /\ delCalls new
             = repeat (map snd (storedBlobs new), false) k
                 ++ [(map snd (storedBlobs new), true)])
      \/ delCalls new = repeat (map snd (storedBlobs new), false) 4).
Proof.
  intros Hrun.
  destruct (upload_run env maxRetries retryDelay cfg files tr)
    as (r0 & new0 & Hrun0 & Hshape).
  rewrite Hrun0 in Hrun. inversion Hrun as [[Hr Hnew]].
  apply app_inv_head in Hnew. subst r0 new0. clear Hrun.
  inversion Hshape as [e He Hr Hnew | | |
                      | pre file post runs fls fl cleanup _ Hpos Hsplit Hlen
                          Hfew Hfls Hclean Hr Hnew]; try subst new.
  { destruct (validateAntragFiles_cases cfg files) as [H|[fields H]];
      congruence. }
  assert (Hstored : map snd
                      (storedBlobs
                         (batchSegments maxRetries retryDelay (getTime env tr)
                            (length (present files)) 0 pre runs
                          ++ exhaustedSegment maxRetries retryDelay
                               (getTime env tr) (length (present files))
                               (length pre) file fls fl
                          ++ cleanup))
                    = map storedUrl runs).
  { rewrite !storedBlobs_app, storedBlobs_exhaustedSegment.
    rewrite (storedBlobs_none cleanup)
      by (intros p b o res;
          exact (cleanUpRun_no_put _ _ _ _ _ p b o res Hclean)).
    rewrite !app_nil_r, storedBlobs_batchSegments by assumption.
    apply map_snd_combine_same.
    rewrite pathsFrom_length, length_map. congruence. }
  assert (Hcalls : delCalls
                     (batchSegments maxRetries retryDelay (getTime env tr)
                        (length (present files)) 0 pre runs
                      ++ exhaustedSegment maxRetries retryDelay
                           (getTime env tr) (length (present files))
                           (length pre) file fls fl
                      ++ cleanup)
                   = delCalls cleanup).
  { rewrite app_assoc, delCalls_app. rewrite delCalls_none; [reflexivity|].
    intros us rej Hin.
    destruct (upload_events_before_cleanup _ _ _ _ _ _ _ _ _ _ Hfew Hfls Hin)
      as (j & f & hi & Hev).
    exact Hev. }
  rewrite Hstored, Hcalls.
  destruct Hclean as [Hnil | result devs Hne Hdel Hdeletion].
  - split; [reflexivity|]. intros Hne. contradiction.
  - split; [intros Hnil; contradiction|]. intros _.
    change (EvConsole LogCleaningUpAfterFailure :: devs)
      with ([EvConsole LogCleaningUpAfterFailure] ++ devs).
    rewrite delCalls_app. cbn [delCalls flat_map app].
    destruct (deletionRun_calls _ _ _ _ _ Hdeletion)
      as [(_ & _ & _ & Hc)
         |(_ & _ & [[Hnil _]|(_ & k & Hk & Hc)])];
      try contradiction; rewrite Hc.
    + right. reflexivity.
    + left. exists k. split; [unfold DEFAULT_MAX_RETRIES in Hk; lia|reflexivity].
Qed.

(** X11.  Every [put] of [uploadAntragFiles] sends a file of the batch as it
    is: the blob holds that file's bytes and carries its media type, which
    is also the declared content type; access is public, the cache lifetime
    is 31536000 seconds, and no random suffix is asked for. *)
Theorem uploadAntragFiles_put_contents (env : Env) (maxRetries retryDelay : Z)
  (cfg : Config) (files : option (list File)) (tr : World) :
  exists (r : outcome (list jsstring)) (new : list event),
    uploadAntragFiles env maxRetries retryDelay cfg files tr = (r, tr ++ new)
    /\ forall p b o res,
         In (EvPut p b o res) new ->
         exists file : File,
           In file (present files)
           /\ blobParts b = data file
           /\ blobType b = type file
           /\ o = mkPutOptions access_public (type file) false 31536000.
Proof.
  destruct (upload_run env maxRetries retryDelay cfg files tr)
    as (r & new & Hrun & Hshape).
  exists r, new. split; [assumption|].
  intros p b o res Hin.
  destruct (uploadRun_puts _ _ _ _ _ _ _ _ _ _ _ _ Hshape Hin)
    as (i & file & Hnth & _ & Hb & Ho).
  exists file. subst b o. split; [exact (nth_error_In _ _ Hnth)|].
  repeat split.
Qed.

(* ================================================================== *)
(** ** The order and number of store calls, and the time spent waiting *)

Lemma storeFailureCount_le (fls : list failure) :
  (storeFailureCount fls <= length fls)%nat.
Proof. unfold storeFailureCount. apply filter_length_le. Qed.

Lemma storeFailureCount_cons (fl : failure) (fls : list failure) :
  storeFailureCount (fl :: fls)
  = (storeFailureCount [fl] + storeFailureCount fls)%nat.
Proof. unfold storeFailureCount. cbn. destruct fl; reflexivity. Qed.

Section CallFacts.

Variable maxRetries retryDelay : Z.
Variable timestamp : Z.
Variable total : nat.

Lemma putPaths_failedUploadAttempt (i : nat) (file : File) (attempt : Z)
  (fl : failure) :
  putPaths (failedUploadAttempt maxRetries timestamp total i file attempt fl)
  = repeat (pathOf timestamp i file) (storeFailureCount [fl]).
Proof.
  unfold failedUploadAttempt, uploadRetryNote.
  destruct (0 <? attempt), fl; reflexivity.
Qed.

Lemma putPaths_failedUploadRun (i : nat) (file : File) (fls : list failure) :
  forall attempt : Z,
    putPaths
      (failedUploadRun maxRetries retryDelay timestamp total i file attempt fls)
    = repeat (pathOf timestamp i file) (storeFailureCount fls).
Proof.
  induction fls as [|fl fls IH]; intros attempt; cbn [failedUploadRun];
    [reflexivity|].
  rewrite !putPaths_app, putPaths_failedUploadAttempt, IH,
    (storeFailureCount_cons fl fls), repeat_app.
  reflexivity.
Qed.

Lemma putPaths_fileSegment (i : nat) (file : File) (r : fileRun) :
  putPaths (fileSegment maxRetries retryDelay timestamp total i file r)
  = repeat (pathOf timestamp i file) (S (storeFailureCount (failures r))).
Proof.
  unfold fileSegment. rewrite putPaths_app, putPaths_failedUploadRun.
  replace (putPaths
             (successfulUploadAttempt maxRetries timestamp total i file
                (Z.of_nat (length (failures r))) (storedUrl r)))
    with (repeat (pathOf timestamp i file) 1)
    by (unfold successfulUploadAttempt, uploadRetryNote;
        destruct (0 <? _); reflexivity).
  rewrite <- repeat_app. f_equal. lia.
Qed.

(** The [put] calls of the stored files [pre], followed by [c] calls for
    the file after them, come in blocks, one per file, in batch order. *)
Lemma putPaths_blocks (pre : list File) :
  forall (i : nat) (runs : list fileRun) (file : File) (post : list File)
         (c : nat),
    length runs = length pre ->
    putPaths (batchSegments maxRetries retryDelay timestamp total i pre runs)
      ++ repeat (pathOf timestamp (i + length pre) file) c
    = putBlocks
        (combine (pathsFrom timestamp i (pre ++ file :: post))
           (map (fun r => S (storeFailureCount (failures r))) runs ++ [c])).
Proof.
  induction pre as [|f pre IH]; intros i [|r runs] file post c Hlen;
    cbn [length] in Hlen; try discriminate.
  - cbn [batchSegments putPaths flat_map app length map pathsFrom combine].
    rewrite Nat.add_0_r. unfold putBlocks.
    destruct (pathsFrom timestamp (S i) post); cbn; rewrite ?app_nil_r;
      reflexivity.
  - cbn [batchSegments app map pathsFrom combine length].
    rewrite putPaths_app, putPaths_fileSegment, <- app_assoc.
    replace (i + S (length pre))%nat with (S i + length pre)%nat by lia.
    rewrite (IH (S i) runs file post c) by lia.
    reflexivity.
Qed.

Lemma putPaths_batchSegments (files : list File) :
  forall (i : nat) (runs : list fileRun),
    length runs = length files ->
    putPaths (batchSegments maxRetries retryDelay timestamp total i files runs)
    = putBlocks
        (combine (pathsFrom timestamp i files)
           (map (fun r => S (storeFailureCount (failures r))) runs)).
Proof.
  induction files as [|f files IH]; intros i [|r runs] Hlen;
    cbn [length] in Hlen; try discriminate; [reflexivity|].
  cbn [batchSegments map pathsFrom combine].
  rewrite putPaths_app, putPaths_fileSegment, IH by lia.
  reflexivity.
Qed.

Lemma block_sizes (runs : list fileRun) :
  Forall (fewFailures maxRetries) runs ->
  Forall (fun n => Z.of_nat n <= maxRetries + 1)
    (map (fun r => S (storeFailureCount (failures r))) runs).
Proof.
  intros Hfew. rewrite Forall_map. eapply Forall_impl; [|exact Hfew].
  intros r Hr. unfold fewFailures in Hr.
  pose proof (storeFailureCount_le (failures r)). lia.
Qed.

End CallFacts.

(** X4.  Files are uploaded strictly one after the other, in batch order,
    with at most [maxRetries + 1] store calls each: the pathnames of all
    [put] calls of a run, in the order of the calls, are a block of calls
    for the first file, then a block for the second, and so on, each block
    of at most [maxRetries + 1] calls, and there is no block for a file
    beyond the end of the batch. *)
Theorem uploadAntragFiles_sequential (env : Env) (maxRetries retryDelay : Z)
  (cfg : Config) (files : option (list File)) (tr : World) :
  exists (r : outcome (list jsstring)) (new : list event) (counts : list nat),
    uploadAntragFiles env maxRetries retryDelay cfg files tr = (r, tr ++ new)
    /\ (length counts <= length (present files))%nat
    /\ Forall (fun n => Z.of_nat n <= maxRetries + 1) counts
    /\ putPaths new
       = putBlocks
           (combine (pathsFrom (getTime env tr) 0 (present files)) counts).
Proof.
  destruct (upload_run env maxRetries retryDelay cfg files tr)
    as (r & new & Hrun & Hshape).
  exists r, new.
  destruct Hshape as [e He | _ Hnone | _ _ Hneg | runs _ _ Hpos Hlen Hfew
                     | pre file post runs fls fl cleanup _ Hpos Hsplit Hlen
                         Hfew Hfls Hclean].
  1-3: exists []; split; [assumption|]; split; [cbn; lia|];
       split; [constructor|];
       destruct (pathsFrom (getTime env tr) 0 (present files)); reflexivity.
  - exists (map (fun r => S (storeFailureCount (failures r))) runs).
    split; [assumption|]. split; [rewrite length_map; lia|].
    split; [apply block_sizes; assumption|].
    apply putPaths_batchSegments. assumption.
  - exists (map (fun r => S (storeFailureCount (failures r))) runs
              ++ [storeFailureCount (fls ++ [fl])]).
    split; [assumption|].
    split.
    { rewrite Hsplit, !length_app, length_map. cbn [length]. lia. }
    split.
    { apply Forall_app. split; [apply block_sizes; assumption|].
      constructor; [|constructor].
      pose proof (storeFailureCount_le (fls ++ [fl])) as Hle.
      rewrite length_app in Hle. cbn [length] in Hle. lia. }
    replace (pathsFrom (getTime env tr) 0 (present files))
      with (pathsFrom (getTime env tr) 0 (pre ++ file :: post))
      by (rewrite Hsplit; reflexivity).
    rewrite <- (putPaths_blocks maxRetries retryDelay (getTime env tr)
                  (length (present files)) pre 0 runs file post _ Hlen).
    rewrite !putPaths_app. f_equal.
    rewrite (putPaths_none cleanup)
      by (intros p b o res;
          exact (cleanUpRun_no_put _ _ _ _ _ p b o res Hclean)).
    rewrite app_nil_r. unfold exhaustedSegment.
    rewrite putPaths_app, putPaths_failedUploadRun,
      putPaths_failedUploadAttempt, <- repeat_app.
    f_equal. unfold storeFailureCount. rewrite filter_app, length_app.
    reflexivity.
Qed.

Section WaitFacts.

Variable maxRetries retryDelay : Z.
Variable timestamp : Z.
Variable total : nat.

Lemma totalWait_failedUploadRun (i : nat) (file : File) (fls : list failure) :
  forall attempt : Z,
    0 <= attempt ->
    totalWait
      (failedUploadRun maxRetries retryDelay timestamp total i file attempt fls)
    = retryDelay * (2 ^ (attempt + Z.of_nat (length fls)) - 2 ^ attempt).
Proof.
  induction fls as [|fl fls IH]; intros attempt Hpos;
    cbn [failedUploadRun length].
  - rewrite Z.add_0_r. unfold totalWait. cbn. lia.
  - rewrite !totalWait_app, IH by lia.
    replace (attempt + Z.of_nat (S (length fls)))
      with (attempt + 1 + Z.of_nat (length fls)) by lia.
    replace (totalWait
               (failedUploadAttempt maxRetries timestamp total i file attempt fl))
      with 0
      by (unfold failedUploadAttempt, uploadRetryNote;
          destruct (0 <? attempt), fl; reflexivity).
    replace (totalWait (backoffWait retryDelay attempt))
      with (retryDelay * 2 ^ attempt)
      by (unfold totalWait; cbn; lia).
    replace (2 ^ (attempt + 1)) with (2 * 2 ^ attempt)
      by (rewrite Z.pow_add_r by lia; lia).
    lia.
Qed.

Lemma totalWait_fileSegment (i : nat) (file : File) (r : fileRun) :
  totalWait (fileSegment maxRetries retryDelay timestamp total i file r)
  = retryDelay * (2 ^ Z.of_nat (length (failures r)) - 1).
Proof.
  unfold fileSegment. rewrite totalWait_app, totalWait_failedUploadRun by lia.
  replace (totalWait
             (successfulUploadAttempt maxRetries timestamp total i file
                (Z.of_nat (length (failures r))) (storedUrl r)))
    with 0
    by (unfold successfulUploadAttempt, uploadRetryNote;
        destruct (0 <? _); reflexivity).
  cbn [Z.add]. change (2 ^ 0) with 1. lia.
Qed.

Lemma totalWait_exhaustedSegment (i : nat) (file : File) (fls : list failure)
  (fl : failure) :
  totalWait (exhaustedSegment maxRetries retryDelay timestamp total i file fls fl)
  = retryDelay * (2 ^ Z.of_nat (length fls) - 1).
Proof.
  unfold exhaustedSegment.
  rewrite totalWait_app, totalWait_failedUploadRun by lia.
  replace (totalWait
             (failedUploadAttempt maxRetries timestamp total i file maxRetries fl))
    with 0
    by (unfold failedUploadAttempt, uploadRetryNote;
        destruct (0 <? maxRetries), fl; reflexivity).
  cbn [Z.add]. change (2 ^ 0) with 1. lia.
Qed.

Lemma totalWait_batchSegments (files : list File) :
  0 <= retryDelay -> 0 <= maxRetries ->
  forall (i : nat) (runs : list fileRun),
    Forall (fewFailures maxRetries) runs ->
    0 <= totalWait
           (batchSegments maxRetries retryDelay timestamp total i files runs)
      <= Z.of_nat (length runs) * (retryDelay * (2 ^ maxRetries - 1)).
Proof.
  intros Hdelay Hpos.
  induction files as [|f files IH]; intros i [|r runs] Hfew;
    cbn [batchSegments]; try (unfold totalWait; cbn; lia).
  - unfold totalWait. cbn [waits flat_map fold_right length].
    pose proof (pow2_mono 0 maxRetries ltac:(lia)) as H.
    change (2 ^ 0) with 1 in H. nia.
  - inversion Hfew as [|? ? Hr Hrest]; subst.
    rewrite totalWait_app, totalWait_fileSegment.
    specialize (IH (S i) runs Hrest). unfold fewFailures in Hr.
    pose proof (pow2_mono 0 (Z.of_nat (length (failures r))) ltac:(lia)) as Hlow.
    pose proof (pow2_mono (Z.of_nat (length (failures r))) maxRetries
                  ltac:(lia)) as Hhigh.
    change (2 ^ 0) with 1 in Hlow. cbn [length].
    nia.
Qed.

End WaitFacts.

Lemma cleanUpRun_totalWait (env : Env) (announcement : consoleLine)
  (uploaded : list jsstring) (tr : World) (cleanup : list event) :
  cleanUpRun env announcement uploaded tr cleanup ->
  0 <= totalWait cleanup
    <= DEFAULT_RETRY_DELAY * (2 ^ DEFAULT_MAX_RETRIES - 1).
Proof.
  intros [Hnil | r devs Hne Hrun Hshape].
  - unfold totalWait. cbn. lia.
  - change (EvConsole announcement :: devs)
      with ([EvConsole announcement] ++ devs).
    rewrite totalWait_app.
    destruct (deletionRun_totalWait _ _ _ _ _ Hshape) as (k & Hk & Hsum).
    rewrite Hsum. unfold DEFAULT_MAX_RETRIES, DEFAULT_RETRY_DELAY in *.
    pose proof (pow2_mono 0 k ltac:(lia)) as Hlow.
    pose proof (pow2_mono k 3 ltac:(lia)) as Hhigh.
    change (2 ^ 0) with 1 in Hlow. change (2 ^ 3) with 8 in *.
    change (totalWait [EvConsole announcement]) with 0. lia.
Qed.

(** X5.  The time [uploadAntragFiles] spends waiting is bounded by its
    parameters and the size of the batch: with a delay that is not
    negative, the waits of a call that returns add up to at most
    [retryDelay * (2 ^ maxRetries - 1)] per file, and those of any call to
    at most that plus the [1000 * (2 ^ 3 - 1)] ms of the compensating
    deletion. *)
Theorem uploadAntragFiles_wait_bound (env : Env) (maxRetries retryDelay : Z)
  (cfg : Config) (files : option (list File)) (tr : World) :
  0 <= retryDelay ->
  exists (r : outcome (list jsstring)) (new : list event),
    uploadAntragFiles env maxRetries retryDelay cfg files tr = (r, tr ++ new)
    /\ 0 <= totalWait new
       <= Z.of_nat (length (present files))
            * (retryDelay * (2 ^ Z.max 0 maxRetries - 1))
          + DEFAULT_RETRY_DELAY * (2 ^ DEFAULT_MAX_RETRIES - 1)
    /\ ((exists urls, r = Ok urls) ->
        totalWait new
        <= Z.of_nat (length (present files))
             * (retryDelay * (2 ^ Z.max 0 maxRetries - 1))).
Proof.
  intros Hdelay.
  destruct (upload_run env maxRetries retryDelay cfg files tr)
    as (r & new & Hrun & Hshape).
  exists r, new. split; [assumption|].
  pose proof (pow2_mono 0 (Z.max 0 maxRetries) ltac:(lia)) as Hone.
  change (2 ^ 0) with 1 in Hone.
  assert (Hcleanup : 0 <= DEFAULT_RETRY_DELAY * (2 ^ DEFAULT_MAX_RETRIES - 1))
    by (vm_compute; discriminate).
  destruct Hshape as [e He | _ Hnone | _ _ Hneg | runs _ _ Hpos Hlen Hfew
                     | pre file post runs fls fl cleanup _ Hpos Hsplit Hlen
                         Hfew Hfls Hclean].
  1-3: change (totalWait []) with 0; split; [nia|intros _; nia].
  - rewrite Z.max_r by lia.
    pose proof (totalWait_batchSegments maxRetries retryDelay (getTime env tr)
                  (length (present files)) (present files) Hdelay Hpos 0 runs
                  Hfew) as Hbatch.
    rewrite Hlen in Hbatch. split; [lia|intros _; lia].
  - rewrite Z.max_r by lia. rewrite Z.max_r in Hone by lia.
    pose proof (totalWait_batchSegments maxRetries retryDelay (getTime env tr)
                  (length (present files)) pre Hdelay Hpos 0 runs Hfew)
      as Hbatch.
    pose proof (cleanUpRun_totalWait _ _ _ _ _ Hclean) as Hclean'.
    assert (Hcount : Z.of_nat (length (present files))
                     = Z.of_nat (length pre) + 1 + Z.of_nat (length post))
      by (rewrite Hsplit, length_app; cbn [length]; lia).
    rewrite !totalWait_app, totalWait_exhaustedSegment, Hfls, Hcount.
    rewrite Hlen in Hbatch.
    split; [|intros [urls Hurls]; discriminate].
    set (bound := retryDelay * (2 ^ maxRetries - 1)) in *.
    assert (Hbound : 0 <= bound) by (unfold bound; nia).
    assert (Hpost : 0 <= Z.of_nat (length post) * bound)
      by (apply Z.mul_nonneg_nonneg; lia).
    replace ((Z.of_nat (length pre) + 1 + Z.of_nat (length post)) * bound)
      with (Z.of_nat (length pre) * bound + bound
            + Z.of_nat (length post) * bound)
      by ring.
    lia.
Qed.

(* ================================================================== *)
(** ** More on pathnames *)

Lemma replaceWhiteSpaceRuns_length (s : jsstring) :
  forall inRun, (length (replaceWhiteSpaceRuns inRun s) <= length s)%nat.
Proof.
  induction s as [|c s IH]; intros inRun; cbn [replaceWhiteSpaceRuns length];
    [lia|].
  destruct (isWhiteSpace c).
  - destruct inRun; cbn [app length]; [specialize (IH true)|specialize (IH true)];
      lia.
  - cbn [length]. specialize (IH false). lia.
Qed.

Lemma replaceWhiteSpaceRuns_plain (s : jsstring) :
  forall inRun,
    filter plainChar (replaceWhiteSpaceRuns inRun s) = filter plainChar s.
Proof.
  induction s as [|c s IH]; intros inRun; cbn [replaceWhiteSpaceRuns filter];
    [reflexivity|].
  destruct (isWhiteSpace c) eqn:Hc.
  - unfold plainChar at 2. rewrite Hc. cbn [negb andb].
    destruct inRun; cbn [app]; [apply IH|].
    cbn [filter]. replace (plainChar DASH) with false by reflexivity. apply IH.
  - cbn [filter]. rewrite IH. reflexivity.
Qed.

(** X9.  Sanitizing a file name is idempotent and never makes the name
    longer; it leaves a name unchanged exactly when the name has no white
    space; and it only ever touches white space: the characters that are
    neither white space nor a dash come out the same, in the same order. *)
Theorem sanitizeFileName_properties (fileName : jsstring) :
  sanitizeFileName (sanitizeFileName fileName) = sanitizeFileName fileName
  /\ (length (sanitizeFileName fileName) <= length fileName)%nat
  /\ (sanitizeFileName fileName = fileName
      <-> Forall (fun c => isWhiteSpace c = false) fileName)
  /\ filter plainChar (sanitizeFileName fileName) = filter plainChar fileName.
Proof.
  unfold sanitizeFileName. split; [|split; [|split]].
  - apply replaceWhiteSpaceRuns_id. apply replaceWhiteSpaceRuns_clean.
  - apply replaceWhiteSpaceRuns_length.
  - split.
    + intros Heq. rewrite <- Heq. apply replaceWhiteSpaceRuns_clean.
    + intros Hclean. apply replaceWhiteSpaceRuns_id. assumption.
  - apply replaceWhiteSpaceRuns_plain.
Qed.

(** X10.  For one timestamp, a pathname tells both the index and the
    sanitized name: two pathnames are equal exactly when the indices are
    equal and the sanitized names are equal. *)
Theorem blobPathnameOf_decides (timestamp : Z) (i j : nat) (s t : jsstring) :
  blobPathnameOf timestamp i s = blobPathnameOf timestamp j t
  <-> i = j /\ s = t.
Proof.
  split; [|intros [-> ->]; reflexivity].
  intros Heq. pose proof (blobPathnameOf_index _ _ _ _ _ Heq) as Hij.
  subst j. split; [reflexivity|].
  unfold blobPathnameOf in Heq.
  do 4 apply app_inv_head in Heq. cbn in Heq. congruence.
Qed.

Lemma fileUploadMessage_not_generic (fileName : jsstring) :
  fileUploadMessage fileName <> genericUploadMessage.
Proof.
  unfold fileUploadMessage, genericUploadMessage. cbn. discriminate.
Qed.

(** X15.  A fault of the store or of reading a file never surfaces as the
    generic message: whatever [uploadAntragFiles] throws, it is not the
    [AppError] with the text of the outer [catch] clause.  Every value
    raised while a file is tried is caught by that file's retry loop, and
    ends as the error that names the file. *)
Theorem uploadAntragFiles_never_generic (env : Env) (maxRetries retryDelay : Z)
  (cfg : Config) (files : option (list File)) (tr tr' : World) (e : exn) :
  uploadAntragFiles env maxRetries retryDelay cfg files tr = (Throw e, tr') ->
  e <> AppError FILE_UPLOAD genericUploadMessage.
Proof.
  intros Hrun.
  destruct (upload_run env maxRetries retryDelay cfg files tr)
    as (r & new & Hrun0 & Hshape).
  rewrite Hrun0 in Hrun. inversion Hrun as [[Hr Hnew]]. subst r. clear Hrun.
  inversion Hshape as [e' He | | | | pre file post runs fls fl cleanup
                                    _ _ _ _ _ _ _]; subst.
  - destruct (validateAntragFiles_cases cfg files) as [H|[fields H]];
      congruence.
  - unfold AppError_fileUpload. intros Heq.
    apply (fileUploadMessage_not_generic (name file)). congruence.
Qed.

(* ================================================================== *)
(** ** The further properties on the small batches *)

Lemma empty_input_is_a_no_op_witness :
  uploadAntragFiles (scriptedStore demoTime [] []) (-1) 1000 demoConfig
    (Some []) [] = (Ok [], [])
  /\ deleteAntragFiles (scriptedStore demoTime [] []) None 3 1000 []
     = (Ok (mkDeletionOutcome true []), []).
Proof.
  destruct (empty_input_is_a_no_op (scriptedStore demoTime [] []) (-1) 1000
              demoConfig (Some []) None []) as [Hupload Hdelete].
  split; [apply Hupload|apply Hdelete]; reflexivity.
Defined.

Lemma uploadAntragFiles_returns_what_was_stored_witness :
  map snd (storedBlobs (snd demoStoredRun)) = returned (fst demoStoredRun)
  /\ map fst (storedBlobs (snd demoStoredRun))
     = pathsFrom (getTime (scriptedStore demoTime [true; true] []) []) 0
         (firstn (length (returned (fst demoStoredRun)))
            (present (Some [demoPdf; demoPng])))
  /\ delCalls (snd demoStoredRun) = [].
Proof.
  apply (uploadAntragFiles_returns_what_was_stored
           (scriptedStore demoTime [true; true] []) 3 1000 demoConfig
           (Some [demoPdf; demoPng]) [] (returned (fst demoStoredRun))
           (snd demoStoredRun)).
  vm_compute. reflexivity.
Defined.

Lemma uploadAntragFiles_failure_rolls_back_witness :
  (map snd (storedBlobs (snd demoRolledBackRun)) = [] ->
   delCalls (snd demoRolledBackRun) = [])
  /\ (map snd (storedBlobs (snd demoRolledBackRun)) <> [] ->
      (exists k : nat,
          (k <= 3)%nat
          /\ delCalls (snd demoRolledBackRun)
             = repeat (map snd (storedBlobs (snd demoRolledBackRun)), false) k
                 ++ [(map snd (storedBlobs (snd demoRolledBackRun)), true)])
      \/ delCalls (snd demoRolledBackRun)
         = repeat (map snd (storedBlobs (snd demoRolledBackRun)), false) 4).
Proof.
  apply (uploadAntragFiles_failure_rolls_back
           (scriptedStore demoTime [true; false; false] [false; true]) 1 1000
           demoConfig (Some [demoPdf; demoPng]) [] FILE_UPLOAD
           (fileUploadMessage (name demoPng)) (snd demoRolledBackRun)).
  vm_compute. reflexivity.
Defined.

Lemma uploadAntragFiles_wait_bound_witness :
  exists (r : outcome (list jsstring)) (new : list event),
    uploadAntragFiles (scriptedStore demoTime [] []) 3 1000 demoConfig
      (Some [demoPdf]) [] = (r, [] ++ new)
    /\ 0 <= totalWait new
       <= Z.of_nat (length (present (Some [demoPdf])))
            * (1000 * (2 ^ Z.max 0 3 - 1))
          + DEFAULT_RETRY_DELAY * (2 ^ DEFAULT_MAX_RETRIES - 1)
    /\ ((exists urls, r = Ok urls) ->
        totalWait new
        <= Z.of_nat (length (present (Some [demoPdf])))
             * (1000 * (2 ^ Z.max 0 3 - 1))).
Proof.
  apply (uploadAntragFiles_wait_bound (scriptedStore demoTime [] []) 3 1000
           demoConfig (Some [demoPdf]) []).
  lia.
Defined.

Lemma deleteAntragFiles_schedule_witness :
  exists (r : DeletionOutcome) (new : list event),
    deleteAntragFiles (scriptedStore demoTime [] [false; false; true])
      (Some [lit "https://blob.example/a"]) 3 1000 []
    = (Ok r, [] ++ new)
    /\ observe new
       = [ObsDel [lit "https://blob.example/a"] false; ObsSleep 1000;
          ObsDel [lit "https://blob.example/a"] false; ObsSleep 2000;
          ObsDel [lit "https://blob.example/a"] true].
Proof.
  destruct (deleteAntragFiles_schedule
              (scriptedStore demoTime [] [false; false; true])
              (Some [lit "https://blob.example/a"]) 3 1000 [])
    as (r & new & Hrun & _ & Hschedule).
  exists r, new. split; [exact Hrun|].
  vm_compute in Hrun. inversion Hrun; subst r new. vm_compute. reflexivity.
Defined.

Lemma deleteAntragFiles_wait_bound_witness :
  exists (r : DeletionOutcome) (new : list event),
    deleteAntragFiles (scriptedStore demoTime [] [])
      (Some [lit "https://blob.example/a"]) 3 1000 []
    = (Ok r, [] ++ new)
    /\ 0 <= totalWait new <= 1000 * (2 ^ Z.max 0 3 - 1).
Proof.
  apply (deleteAntragFiles_wait_bound (scriptedStore demoTime [] [])
           (Some [lit "https://blob.example/a"]) 3 1000 []).
  lia.
Defined.

Lemma deleteAntragFiles_negative_budget_witness :
  deleteAntragFiles (scriptedStore demoTime [] [true])
    (Some [lit "https://blob.example/a"]) (-1) 1000 []
  = (Ok (mkDeletionOutcome false []),
     [] ++ [EvConsole (LogAttemptingDelete
                         (length [lit "https://blob.example/a"]))]).
Proof.
  apply (deleteAntragFiles_negative_budget (scriptedStore demoTime [] [true])
           [lit "https://blob.example/a"] (-1) 1000 []).
  - discriminate.
  - lia.
Defined.

Lemma resetBuild_gates_witness :
  (forall rejected,
      In (BvResetDatabase rejected) (snd (ResetBuild.script demoDb [])) ->
      IS_VERCEL demoDb = true
      /\ In (BvValidateEnvironment (inr true))
           (snd (ResetBuild.script demoDb []))
      /\ In (BvValidateSchema (inr true)) (snd (ResetBuild.script demoDb [])))
  /\ (forall result,
         In (BvDeploySchema result) (snd (ResetBuild.script demoDb [])) ->
         In (BvResetMigrations None) (snd (ResetBuild.script demoDb []))
         /\ In (BvValidateSchema (inr true))
              (snd (ResetBuild.script demoDb [])))
  /\ (forall result,
         In (BvValidateSchema result) (snd (ResetBuild.script demoDb [])) ->
         In (BvValidateEnvironment (inr true))
           (snd (ResetBuild.script demoDb []))).
Proof.
  apply (resetBuild_gates demoDb [] 0 (snd (ResetBuild.script demoDb []))).
  vm_compute. reflexivity.
Defined.

Lemma uploadAntragFiles_never_generic_witness :
  AppError FILE_UPLOAD (fileUploadMessage (name demoPdf))
  <> AppError FILE_UPLOAD genericUploadMessage.
Proof.
  apply (uploadAntragFiles_never_generic (scriptedStore demoTime [] []) 3 1000
           demoConfig (Some [demoPdf]) [] (snd demoRefusedRun)).
  vm_compute. reflexivity.
Defined.

(* ================================================================== *)
(** ** Where each file is stored *)




(* ================================================================== *)
(** ** What an upload throws *)



Section CaughtPerAttempt.

Variable maxRetries retryDelay : Z.
Variable timestamp : Z.
Variable total : nat.








End CaughtPerAttempt.




